(** * reg_to_h5: DICOM REG to transform-archive converter

    A shallow embedding of [tools/dicom-reg-converter/reg_to_h5.cxx] and the
    properties of its frame-pair composition, reader wrapper, driver and
    command-line parsing.

    The program is written against ITK.  The parts of ITK it calls are
    modelled here from ITK's behaviour:
    - [itk::CompositeTransform] keeps a queue of transforms; [AddTransform]
      pushes to the back; [TransformPoint] applies the queue in REVERSE
      queue order (the back of the queue first), so that a queue
      [T0; T1; ...; Tn] acts on [p] as [T0 (T1 (... (Tn p)))];
    - [FlattenTransformQueue] replaces the queue by its nested queue, in
      which every nested composite is replaced by its own nested queue;
    - [GetInverse] walks the queue from the front, asks every element for
      [GetInverseTransform], gives up when one has none, and pushes every
      inverse to the FRONT of the result;
    - the DCMTK transform reader and the transform file writer are the two
      external collaborators; they are parameters of the model.

    Scalars are [double] in the program.  The composition itself does no
    arithmetic (a composite applies its elements one after the other), so
    the model is generic in the point type and in the non-composite
    transforms; exact inverses are an explicit law ([ExactInverse]), met by
    the rational affine maps of [Affine3]. *)

From Stdlib Require Import List String Ascii Bool ZArith QArith Qcanon Lia.
Import ListNotations.

Local Open Scope string_scope.
Local Open Scope list_scope.

Set Warnings "-register-all".

(** ** Exceptions and results *)

(** The two exception classes that [main] catches. *)
Inductive Exception : Type :=
| runtime_error (what : string)          (* std::runtime_error *)
| ExceptionObject (description : string). (* itk::ExceptionObject *)

(** A call either returns or throws. *)
Inductive Result (A : Type) : Type :=
| Return (a : A)
| Throw (e : Exception).

Arguments Return {A} a.
Arguments Throw {A} e.

Definition bind {A B : Type} (c : Result A) (k : A -> Result B) : Result B :=
  match c with
  | Return a => k a
  | Throw e => Throw e
  end.

Notation "x <- c ;; k" := (bind c (fun x => k))
  (at level 61, c at next level, right associativity).

(** [Update()] of an ITK reader or writer: it completes, or it throws an
    [itk::ExceptionObject]. *)
Inductive Update (A : Type) : Type :=
| Updated (a : A)
| Failed (description : string).

Arguments Updated {A} a.
Arguments Failed {A} description.

Definition run_Update {A : Type} (u : Update A) : Result A :=
  match u with
  | Updated a => Return a
  | Failed description => Throw (ExceptionObject description)
  end.

(** The error kinds of the converter, as the exceptions it throws. *)
Definition FrameNotFound (frameOfReference : string) : Exception :=
  runtime_error ("No transforms found for frame of reference " ++ frameOfReference).

Definition UnexpectedTransformShape (frameOfReference : string) : Exception :=
  runtime_error ("Expected CompositeTransform for frame " ++ frameOfReference).

Definition NotInvertible : Exception :=
  runtime_error "Fixed transform is not invertible".

Definition MissingFixedFoR : Exception :=
  runtime_error
    "At least --fixed must be supplied to determine which transform to export".

(** ** Transforms *)

(** The interface of a non-composite [itk::Transform]: its action on a
    point and [GetInverseTransform], which gives no transform (a null
    pointer) when the transform is singular. *)
Class TransformBase (Point T : Type) : Type := {
  leaf_TransformPoint : T -> Point -> Point;
  leaf_GetInverseTransform : T -> option T
}.

(** A transform node is a non-composite transform or a composite, which
    owns a queue of nodes. *)
Inductive Transform (T : Type) : Type :=
| Leaf (t : T)
| Composite (queue : list (Transform T)).

Arguments Leaf {T} t.
Arguments Composite {T} queue.

(** The queue of a [CompositeType] object. *)
Definition CompositeType (T : Type) : Type := list (Transform T).

Section CompositeTransform.

Context {Point T : Type} `{TransformBase Point T}.

(** [dynamic_cast<CompositeType *>] gives a null pointer on a leaf. *)
Definition is_composite (t : Transform T) : bool :=
  match t with
  | Leaf _ => false
  | Composite _ => true
  end.

(** A composite is flattened when no element is itself a composite. *)
Definition flattened (q : CompositeType T) : bool :=
  forallb (fun t => negb (is_composite t)) q.

(** [GetNestedTransformQueue] of one node: the non-composite transforms
    below it, in queue order. *)
Fixpoint nested (t : Transform T) : list T :=
  match t with
  | Leaf x => [x]
  | Composite q => flat_map nested q
  end.

Definition GetNestedTransformQueue (q : CompositeType T) : list T :=
  flat_map nested q.

(** [AddTransform] pushes to the back of the queue. *)
Definition AddTransform (q : CompositeType T) (t : Transform T)
  : CompositeType T :=
  q ++ [t].

(** [FlattenTransformQueue]: clear the queue and add the nested queue
    again, element by element. *)
Definition FlattenTransformQueue (q : CompositeType T) : CompositeType T :=
  fold_left AddTransform (map Leaf (GetNestedTransformQueue q)) [].

(** The loop of [GetInverse]: from the front of the queue, invert and push
    to the front of the result; stop with nothing at the first element
    that has no inverse. *)
Definition GetInverse_loop (inv : Transform T -> option (Transform T))
  : CompositeType T -> CompositeType T -> option (CompositeType T) :=
  fix loop (q acc : CompositeType T) : option (CompositeType T) :=
    match q with
    | [] => Some acc
    | t :: q' =>
        match inv t with
        | None => None
        | Some i => loop q' (i :: acc)
        end
    end.

Fixpoint GetInverseTransform (t : Transform T) : option (Transform T) :=
  match t with
  | Leaf x => option_map Leaf (leaf_GetInverseTransform x)
  | Composite q => option_map Composite (GetInverse_loop GetInverseTransform q [])
  end.

Definition GetInverse (q : CompositeType T) : option (CompositeType T) :=
  GetInverse_loop GetInverseTransform q [].

(** [TransformPoint]: a composite applies its queue in reverse queue
    order, the back first. *)
Fixpoint TransformPoint (t : Transform T) (p : Point) : Point :=
  match t with
  | Leaf x => leaf_TransformPoint x p
  | Composite q => fold_right TransformPoint p q
  end.

Definition CompositeTransformPoint (q : CompositeType T) (p : Point) : Point :=
  fold_right TransformPoint p q.

(** A composite is invertible when every non-composite transform in it
    has an inverse. *)
Definition invertible (q : CompositeType T) : bool :=
  forallb (fun x => match leaf_GetInverseTransform x with
                    | Some _ => true
                    | None => false
                    end)
          (GetNestedTransformQueue q).

End CompositeTransform.

(** Inverses that are exact: what [GetInverseTransform] gives undoes the
    transform on both sides. *)
Class ExactInverse (Point T : Type) `{TransformBase Point T} : Prop := {
  inverse_after : forall (t t' : T) (p : Point),
    leaf_GetInverseTransform t = Some t' ->
    leaf_TransformPoint t' (leaf_TransformPoint t p) = p;
  inverse_before : forall (t t' : T) (p : Point),
    leaf_GetInverseTransform t = Some t' ->
    leaf_TransformPoint t (leaf_TransformPoint t' p) = p
}.

(** ** Text written to the diagnostic stream *)

Definition nl : string := String "010"%char EmptyString.

(** [mentions needle s]: [needle] occurs in [s]. *)
Fixpoint mentions (needle s : string) : bool :=
  if prefix needle s then true
  else match s with
       | EmptyString => false
       | String _ s' => mentions needle s'
       end.

(** ** Command line *)

Record Arguments : Type := mkArguments {
  inputReg : string;
  outputTransform : string;
  fixedFoR : option string;
  movingFoR : option string
}.

(** A default-constructed [Arguments]. *)
Definition no_arguments : Arguments := mkArguments "" "" None None.

Definition EXIT_SUCCESS : Z := 0.
Definition EXIT_FAILURE : Z := 1.

(** What [PrintUsage] writes. *)
Definition PrintUsage (exec : string) : string :=
  "Usage: " ++ exec
  ++ " --input REG_FILE --output OUTPUT_H5 [--fixed FRAME_UID] [--moving FRAME_UID]"
  ++ nl.

(** [ParseArguments] returns the record or ends the process with
    [std::exit], after writing to the diagnostic stream. *)
Inductive Parse : Type :=
| Parsed (args : Arguments)
| Exit (status : Z) (cerr : string).

(** The last two branches of the chain, which do not look at [i + 1 < argc]. *)
Definition ParseArguments_else (exec key : string) : Parse :=
  if (key =? "--help") || (key =? "-h") then
    Exit EXIT_SUCCESS (PrintUsage exec)
  else
    Exit EXIT_FAILURE ("Unknown argument: " ++ key ++ nl ++ PrintUsage exec).

(** The [for] loop over [argv[1..]]: [argv] is what is left from index [i]
    on, so [i + 1 < argc] holds when a second token is left. *)
Fixpoint ParseArguments_loop (exec : string) (args : Arguments)
         (argv : list string) {struct argv} : Parse :=
  match argv with
  | [] => Parsed args
  | key :: rest =>
      match rest with
      | value :: rest' =>
          if (key =? "--input") || (key =? "-i") then
            ParseArguments_loop exec
              (mkArguments value (outputTransform args) (fixedFoR args) (movingFoR args))
              rest'
          else if (key =? "--output") || (key =? "-o") then
            ParseArguments_loop exec
              (mkArguments (inputReg args) value (fixedFoR args) (movingFoR args))
              rest'
          else if key =? "--fixed" then
            ParseArguments_loop exec
              (mkArguments (inputReg args) (outputTransform args) (Some value) (movingFoR args))
              rest'
          else if key =? "--moving" then
            ParseArguments_loop exec
              (mkArguments (inputReg args) (outputTransform args) (fixedFoR args) (Some value))
              rest'
          else ParseArguments_else exec key
      | [] => ParseArguments_else exec key
      end
  end.

Definition ParseArguments (exec : string) (argv : list string) : Parse :=
  match ParseArguments_loop exec no_arguments argv with
  | Parsed args =>
      if (inputReg args =? "") || (outputTransform args =? "") then
        Exit EXIT_FAILURE (PrintUsage exec)
      else Parsed args
  | Exit status cerr => Exit status cerr
  end.

(** ** Reader, composition engine and driver *)

(** What a run of the process leaves behind: the exit status, the text on
    the diagnostic stream, and the calls of the writer's [Update] with the
    file name and the transform set on it. *)
Record Outcome (T : Type) : Type := mkOutcome {
  exit_status : Z;
  cerr : string;
  writer_calls : list (string * CompositeType T)
}.

Arguments mkOutcome {T} _ _ _.
Arguments exit_status {T} _.
Arguments cerr {T} _.
Arguments writer_calls {T} _.

Section Converter.

Context {Point T : Type} `{TransformBase Point T}.

(** [reader->Update()] with the DCMTK transform IO set to a frame of
    reference, followed by [GetTransformList()]: an ITK exception, or the
    list pointer (null, or a list of transforms). *)
Variable TransformFileReader :
  string -> string -> Update (option (list (Transform T))).

(** [writer->Update()] with a file name and an input transform. *)
Variable TransformFileWriter :
  string -> CompositeType T -> Update unit.

(** The test [!list || list->empty()] holds for what the reader gave. *)
Definition yields_no_transforms (regPath frameOfReference : string) : Prop :=
  TransformFileReader regPath frameOfReference = Updated None
  \/ TransformFileReader regPath frameOfReference = Updated (Some []).

Definition ReadComposite (regPath frameOfReference : string)
  : Result (CompositeType T) :=
  list <- run_Update (TransformFileReader regPath frameOfReference) ;;
  match list with
  | None | Some [] =>
      Throw (runtime_error
               ("No transforms found for frame of reference " ++ frameOfReference))
  | Some (base :: _) =>
      match base with
      | Composite composite => Return composite
      | Leaf _ =>
          Throw (runtime_error
                   ("Expected CompositeTransform for frame " ++ frameOfReference))
      end
  end.

Definition ComposeFixedToMoving (regPath fixedFoR movingFoR : string)
  : Result (CompositeType T) :=
  fixed <- ReadComposite regPath fixedFoR ;;
  moving <- ReadComposite regPath movingFoR ;;
  let fixed := FlattenTransformQueue fixed in
  let moving := FlattenTransformQueue moving in
  match GetInverse fixed with
  | None => Throw (runtime_error "Fixed transform is not invertible")
  | Some fixedInverse =>
      let final := [] in
      let final := AddTransform final (Composite moving) in
      let final := AddTransform final (Composite fixedInverse) in
      Return (FlattenTransformQueue final)
  end.

Definition ExtractSingle (regPath frameOfReference : string)
  : Result (CompositeType T) :=
  fixed <- ReadComposite regPath frameOfReference ;;
  let final := [] in
  let final := AddTransform final (Composite fixed) in
  Return (FlattenTransformQueue final).

(** The two [catch] clauses of [main]. *)
Definition report (e : Exception) : string :=
  match e with
  | ExceptionObject err => "ITK error: " ++ err ++ nl
  | runtime_error what => "Error: " ++ what ++ nl
  end.

Definition main (exec : string) (argv : list string) : Outcome T :=
  match ParseArguments exec argv with
  | Exit status err => mkOutcome status err []
  | Parsed args =>
      let transform :=
        match fixedFoR args, movingFoR args with
        | Some fixed, Some moving =>
            ComposeFixedToMoving (inputReg args) fixed moving
        | Some fixed, None => ExtractSingle (inputReg args) fixed
        | None, _ =>
            Throw (runtime_error
              "At least --fixed must be supplied to determine which transform to export")
        end in
      match transform with
      | Throw e => mkOutcome EXIT_FAILURE (report e) []
      | Return transform =>
          match run_Update (TransformFileWriter (outputTransform args) transform) with
          | Return _ =>
              mkOutcome EXIT_SUCCESS "" [(outputTransform args, transform)]
          | Throw e =>
              mkOutcome EXIT_FAILURE (report e) [(outputTransform args, transform)]
          end
      end
  end.

(** A requested frame of reference has no transforms in the file, and the
    run gets as far as reading it: it is the fixed frame, or it is the
    moving frame and the fixed composite was read. *)
Definition frame_absent (args : Arguments) (frameOfReference : string) : Prop :=
  (fixedFoR args = Some frameOfReference
   /\ yields_no_transforms (inputReg args) frameOfReference)
  \/ (exists fixedUID fixed,
         fixedFoR args = Some fixedUID
         /\ movingFoR args = Some frameOfReference
         /\ ReadComposite (inputReg args) fixedUID = Return fixed
         /\ yields_no_transforms (inputReg args) frameOfReference).

End Converter.

(** ** Vocabulary for the statements about the command line *)

(** The four fields a value-taking flag can set. *)
Inductive Field : Type := FInput | FOutput | FFixed | FMoving.

(** The field a token names when it is read as a flag; [--input] and
    [--output] have the aliases [-i] and [-o]. *)
Definition field_of_flag (key : string) : option Field :=
  if (key =? "--input") || (key =? "-i") then Some FInput
  else if (key =? "--output") || (key =? "-o") then Some FOutput
  else if key =? "--fixed" then Some FFixed
  else if key =? "--moving" then Some FMoving
  else None.

Definition field_value (f : Field) (args : Arguments) : option string :=
  match f with
  | FInput => Some (inputReg args)
  | FOutput => Some (outputTransform args)
  | FFixed => fixedFoR args
  | FMoving => movingFoR args
  end.

Definition set_field (f : Field) (value : string) (args : Arguments) : Arguments :=
  match f with
  | FInput => mkArguments value (outputTransform args) (fixedFoR args) (movingFoR args)
  | FOutput => mkArguments (inputReg args) value (fixedFoR args) (movingFoR args)
  | FFixed => mkArguments (inputReg args) (outputTransform args) (Some value) (movingFoR args)
  | FMoving => mkArguments (inputReg args) (outputTransform args) (fixedFoR args) (Some value)
  end.

Definition Field_eqb (f g : Field) : bool :=
  match f, g with
  | FInput, FInput | FOutput, FOutput | FFixed, FFixed | FMoving, FMoving => true
  | _, _ => false
  end.

(** A command line made of flag and value pairs. *)
Definition tokens (pairs : list (string * string)) : list string :=
  flat_map (fun kv => [fst kv; snd kv]) pairs.

Definition names_field (f : Field) (key : string) : bool :=
  match field_of_flag key with
  | Some g => Field_eqb f g
  | None => false
  end.

(** The value given with the last pair whose flag names [f]. *)
Definition last_value (f : Field) (pairs : list (string * string)) : option string :=
  fold_left (fun acc kv => if names_field f (fst kv) then Some (snd kv) else acc)
            pairs None.

Definition is_value_flag (key : string) : bool :=
  match field_of_flag key with
  | Some _ => true
  | None => false
  end.

(** A token that names the field occurs on the command line. *)
Definition flag_given (f : Field) (argv : list string) : bool :=
  existsb (names_field f) argv.

(** [--help] or [-h] occurs on the command line. *)
Definition help_requested (argv : list string) : bool :=
  existsb (fun key => (key =? "--help") || (key =? "-h")) argv.

(** The loop gets to [--help] or [-h] as a key: the command line is a
    sequence of value-taking flags with their values, then the help token,
    then anything. *)
Definition help_reached (argv : list string) : Prop :=
  exists pairs key rest,
    forallb (fun kv => is_value_flag (fst kv)) pairs = true
    /\ argv = tokens pairs ++ key :: rest
    /\ (key =? "--help") || (key =? "-h") = true.

(** ** Rational affine transforms

    [itk::MatrixOffsetTransformBase] with exact rationals in the place of
    [double]: a point goes to [matrix * p + offset]; the inverse is singular
    when the determinant is zero, and otherwise has the inverse matrix and
    the offset [- (inverse * offset)]. *)

Local Open Scope Qc_scope.

Definition Vector3 : Type := (Qc * Qc * Qc)%type.
Definition Matrix3 : Type := (Vector3 * Vector3 * Vector3)%type.

Record Affine3 : Type := mkAffine3 { matrix : Matrix3; offset : Vector3 }.

Definition dot (u v : Vector3) : Qc :=
  let '(u0, u1, u2) := u in
  let '(v0, v1, v2) := v in
  u0 * v0 + u1 * v1 + u2 * v2.

Definition mulMV (m : Matrix3) (v : Vector3) : Vector3 :=
  let '(r0, r1, r2) := m in (dot r0 v, dot r1 v, dot r2 v).

Definition addV (u v : Vector3) : Vector3 :=
  let '(u0, u1, u2) := u in
  let '(v0, v1, v2) := v in
  (u0 + v0, u1 + v1, u2 + v2).

Definition oppV (u : Vector3) : Vector3 :=
  let '(u0, u1, u2) := u in (- u0, - u1, - u2).

Definition determinant (m : Matrix3) : Qc :=
  let '((a, b, c), (d, e, f), (g, h, i)) := m in
  a * (e * i - f * h) - b * (d * i - f * g) + c * (d * h - e * g).

Definition inverseMatrix (m : Matrix3) : Matrix3 :=
  let '((a, b, c), (d, e, f), (g, h, i)) := m in
  let k := / determinant m in
  (((e * i - f * h) * k, (c * h - b * i) * k, (b * f - c * e) * k),
   ((f * g - d * i) * k, (a * i - c * g) * k, (c * d - a * f) * k),
   ((d * h - e * g) * k, (b * g - a * h) * k, (a * e - b * d) * k)).

Definition Affine3_TransformPoint (t : Affine3) (p : Vector3) : Vector3 :=
  addV (mulMV (matrix t) p) (offset t).

Definition Affine3_GetInverseTransform (t : Affine3) : option Affine3 :=
  if Qc_eq_bool (determinant (matrix t)) 0 then None
  else
    let inv := inverseMatrix (matrix t) in
    Some (mkAffine3 inv (oppV (mulMV inv (offset t)))).

#[export] Instance Affine3_TransformBase : TransformBase Vector3 Affine3 := {
  leaf_TransformPoint := Affine3_TransformPoint;
  leaf_GetInverseTransform := Affine3_GetInverseTransform
}.

Definition vector (x y z : Z) : Vector3 :=
  (Q2Qc (inject_Z x), Q2Qc (inject_Z y), Q2Qc (inject_Z z)).

Definition diagonal (x y z : Z) : Matrix3 :=
  (vector x 0 0, vector 0 y 0, vector 0 0 z).

Definition translation (x y z : Z) : Affine3 :=
  mkAffine3 (diagonal 1 1 1) (vector x y z).

Definition scaling (x y z : Z) : Affine3 :=
  mkAffine3 (diagonal x y z) (vector 0 0 0).

(** The numerators and denominators of a point, to compare results. *)
Definition coordinates (p : Vector3) : Q * Q * Q :=
  let '(x, y, z) := p in (this x, this y, this z).

Local Close Scope Qc_scope.

(** ** A sample REG file and writer

    [r.dcm] has the frames [A] and [B] (one translation each), [AB] (a
    scaling queued before a translation), [NESTED] (a composite inside the
    composite), [SINGULAR] (a matrix of rank 2), [EMPTY] (a composite with
    no transform) and [MATRIX] (a transform list that starts with a matrix);
    any other frame has an empty transform list, and any other file does
    not load. *)
Definition sample_reader (regPath frameOfReference : string)
  : Update (option (list (Transform Affine3))) :=
  if regPath =? "r.dcm" then
    if frameOfReference =? "A" then
      Updated (Some [Composite [Leaf (translation 10 0 0)]])
    else if frameOfReference =? "B" then
      Updated (Some [Composite [Leaf (translation 0 5 0)]])
    else if frameOfReference =? "AB" then
      Updated (Some [Composite [Leaf (scaling 2 2 2); Leaf (translation 1 0 0)]])
    else if frameOfReference =? "NESTED" then
      Updated (Some [Composite [Composite [Leaf (translation 1 2 3)];
                               Leaf (scaling 2 4 8)]])
    else if frameOfReference =? "SINGULAR" then
      Updated (Some [Composite [Leaf (scaling 1 1 0)]])
    else if frameOfReference =? "EMPTY" then
      Updated (Some [Composite []])
    else if frameOfReference =? "MATRIX" then
      Updated (Some [Leaf (translation 1 0 0)])
    else Updated (Some [])
  else Failed ("Could not load the file: " ++ regPath).

Definition sample_writer (fileName : string) (input : CompositeType Affine3)
  : Update unit :=
  Updated tt.

(** A writer that cannot write. *)
Definition failing_writer (fileName : string) (input : CompositeType Affine3)
  : Update unit :=
  Failed ("Could not write the file: " ++ fileName).

(** The composites of the sample file, for the frames that have one. *)
Definition sample_pair (fixedFoR movingFoR : string) : CompositeType Affine3 :=
  match ComposeFixedToMoving sample_reader "r.dcm" fixedFoR movingFoR with
  | Return final => final
  | Throw _ => []
  end.

Definition sample_single (frameOfReference : string) : CompositeType Affine3 :=
  match ExtractSingle sample_reader "r.dcm" frameOfReference with
  | Return final => final
  | Throw _ => []
  end.

(** * Properties *)

(** ** Queues of transforms *)

Section CompositeTransformFacts.

Context {Point T : Type} `{TransformBase Point T}.

(** Induction on a transform node, with the property available for every
    element of a composite's queue. *)
Lemma Transform_nested_ind (P : Transform T -> Prop) :
  (forall x, P (Leaf x)) ->
  (forall q, Forall P q -> P (Composite q)) ->
  forall t, P t.
Proof.
  intros HLeaf HComposite.
  fix IH 1.
  intros [x | q].
  - apply HLeaf.
  - apply HComposite.
    induction q as [| t q' IHq]; constructor.
    + apply IH.
    + exact IHq.
Qed.

Lemma fold_left_AddTransform (l acc : CompositeType T) :
  fold_left AddTransform l acc = acc ++ l.
Proof.
  revert acc.
  induction l as [| t l IH]; intros acc; simpl.
  - now rewrite app_nil_r.
  - rewrite IH. unfold AddTransform. now rewrite <- app_assoc.
Qed.

Lemma FlattenTransformQueue_nested (q : CompositeType T) :
  FlattenTransformQueue q = map Leaf (GetNestedTransformQueue q).
Proof.
  unfold FlattenTransformQueue. now rewrite fold_left_AddTransform.
Qed.

Lemma flattened_map_Leaf (l : list T) : flattened (map Leaf l) = true.
Proof.
  induction l as [| x l IH]; simpl; auto.
Qed.

Lemma flattened_app (q1 q2 : CompositeType T) :
  flattened (q1 ++ q2) = flattened q1 && flattened q2.
Proof.
  unfold flattened. apply forallb_app.
Qed.

Lemma flattened_FlattenTransformQueue (q : CompositeType T) :
  flattened (FlattenTransformQueue q) = true.
Proof.
  rewrite FlattenTransformQueue_nested. apply flattened_map_Leaf.
Qed.

Lemma GetNestedTransformQueue_map_Leaf (l : list T) :
  GetNestedTransformQueue (map Leaf l) = l.
Proof.
  unfold GetNestedTransformQueue.
  induction l as [| x l IH]; simpl; congruence.
Qed.

Lemma GetNestedTransformQueue_app (q1 q2 : CompositeType T) :
  GetNestedTransformQueue (q1 ++ q2)
  = GetNestedTransformQueue q1 ++ GetNestedTransformQueue q2.
Proof.
  unfold GetNestedTransformQueue. apply flat_map_app.
Qed.

(** Flattening a flattened composite changes nothing. *)
Lemma FlattenTransformQueue_idempotent (q : CompositeType T) :
  FlattenTransformQueue (FlattenTransformQueue q) = FlattenTransformQueue q.
Proof.
  rewrite !FlattenTransformQueue_nested.
  now rewrite GetNestedTransformQueue_map_Leaf.
Qed.

(** The queue that [ExtractSingle] flattens. *)
Lemma Flatten_single (q : CompositeType T) :
  FlattenTransformQueue (AddTransform [] (Composite q))
  = map Leaf (GetNestedTransformQueue q).
Proof.
  rewrite FlattenTransformQueue_nested.
  unfold AddTransform, GetNestedTransformQueue. simpl.
  now rewrite app_nil_r.
Qed.

(** The queue that [ComposeFixedToMoving] flattens. *)
Lemma Flatten_pair (q1 q2 : CompositeType T) :
  FlattenTransformQueue
    (AddTransform (AddTransform [] (Composite q1)) (Composite q2))
  = map Leaf (GetNestedTransformQueue q1 ++ GetNestedTransformQueue q2).
Proof.
  rewrite FlattenTransformQueue_nested.
  unfold AddTransform, GetNestedTransformQueue. simpl.
  now rewrite app_nil_r.
Qed.

(** A composite acts as the sequence of its nested transforms. *)
Lemma TransformPoint_nested (t : Transform T) (p : Point) :
  TransformPoint t p = fold_right leaf_TransformPoint p (nested t).
Proof.
  revert p.
  induction t as [x | q IH] using Transform_nested_ind; intros p.
  - reflexivity.
  - simpl. induction IH as [| t q' Ht _ IHq]; simpl.
    + reflexivity.
    + rewrite fold_right_app, Ht. now rewrite IHq.
Qed.

Lemma CompositeTransformPoint_nested (q : CompositeType T) (p : Point) :
  CompositeTransformPoint q p
  = fold_right leaf_TransformPoint p (GetNestedTransformQueue q).
Proof.
  apply (TransformPoint_nested (Composite q)).
Qed.

Lemma CompositeTransformPoint_map_Leaf (l : list T) (p : Point) :
  CompositeTransformPoint (map Leaf l) p = fold_right leaf_TransformPoint p l.
Proof.
  rewrite CompositeTransformPoint_nested.
  now rewrite GetNestedTransformQueue_map_Leaf.
Qed.

(** The back of the queue is applied first. *)
Lemma CompositeTransformPoint_two (t0 t1 : T) (p : Point) :
  CompositeTransformPoint (AddTransform (AddTransform [] (Leaf t0)) (Leaf t1)) p
  = leaf_TransformPoint t0 (leaf_TransformPoint t1 p).
Proof.
  reflexivity.
Qed.

(** Flattening keeps the action. *)
Lemma CompositeTransformPoint_Flatten (q : CompositeType T) (p : Point) :
  CompositeTransformPoint (FlattenTransformQueue q) p
  = CompositeTransformPoint q p.
Proof.
  rewrite FlattenTransformQueue_nested, CompositeTransformPoint_map_Leaf.
  now rewrite CompositeTransformPoint_nested.
Qed.

Lemma CompositeTransformPoint_app (q1 q2 : CompositeType T) (p : Point) :
  CompositeTransformPoint (q1 ++ q2) p
  = CompositeTransformPoint q1 (CompositeTransformPoint q2 p).
Proof.
  unfold CompositeTransformPoint. apply fold_right_app.
Qed.

(** [GetInverse] on a flattened queue: the inverses, when all exist, come
    out in reverse order in front of what was pushed before. *)
Lemma GetInverse_loop_leaves (l : list T) (acc : CompositeType T) :
  (exists inv,
      map leaf_GetInverseTransform l = map Some inv
      /\ GetInverse_loop GetInverseTransform (map Leaf l) acc
         = Some (map Leaf (rev inv) ++ acc))
  \/ (GetInverse_loop GetInverseTransform (map Leaf l) acc = None
      /\ exists x, In x l /\ leaf_GetInverseTransform x = None).
Proof.
  revert acc.
  induction l as [| x l IH]; intros acc.
  - left. exists []. split; reflexivity.
  - simpl. destruct (leaf_GetInverseTransform x) as [i |] eqn:Hx; simpl.
    + destruct (IH (Leaf i :: acc)) as [(inv & Hmap & Hloop) | (Hloop & y & Hy & Hnone)].
      * left. exists (i :: inv). split.
        -- simpl. now rewrite Hmap.
        -- rewrite Hloop. simpl. rewrite map_app, <- app_assoc. reflexivity.
      * right. split; [exact Hloop |]. exists y. split; [now right | exact Hnone].
    + right. split; [reflexivity |]. exists x. split; [now left | exact Hx].
Qed.

Lemma invertible_spec (q : CompositeType T) :
  invertible q = false
  <-> exists x, In x (GetNestedTransformQueue q) /\ leaf_GetInverseTransform x = None.
Proof.
  unfold invertible.
  induction (GetNestedTransformQueue q) as [| x l IH]; simpl.
  - split; [discriminate | intros (x & [] & _)].
  - destruct (leaf_GetInverseTransform x) as [i |] eqn:Hx; simpl.
    + rewrite IH. split.
      * intros (y & Hy & Hnone). exists y. split; [now right | exact Hnone].
      * intros (y & [<- | Hy] & Hnone); [congruence |]. now exists y.
    + split; [| reflexivity]. intros _. exists x. split; [now left | exact Hx].
Qed.

(** [GetInverse] of the flattened composite fails exactly on a composite
    that is not invertible. *)
Lemma GetInverse_Flatten_None (q : CompositeType T) :
  GetInverse (FlattenTransformQueue q) = None <-> invertible q = false.
Proof.
  rewrite FlattenTransformQueue_nested, invertible_spec. unfold GetInverse.
  destruct (GetInverse_loop_leaves (GetNestedTransformQueue q) [])
    as [(inv & Hmap & Hloop) | (Hloop & x & Hx & Hnone)].
  - rewrite Hloop. split; [discriminate |].
    intros (x & Hin & Hnone). exfalso.
    apply (in_map leaf_GetInverseTransform) in Hin.
    rewrite Hmap, Hnone in Hin.
    apply in_map_iff in Hin. destruct Hin as (y & Hy & _). discriminate.
  - rewrite Hloop. split; [| reflexivity]. intros _. now exists x.
Qed.

Lemma GetInverse_Flatten_Some (q : CompositeType T) :
  invertible q = true ->
  exists inv,
    map leaf_GetInverseTransform (GetNestedTransformQueue q) = map Some inv
    /\ GetInverse (FlattenTransformQueue q) = Some (map Leaf (rev inv)).
Proof.
  intros Hinv.
  rewrite FlattenTransformQueue_nested. unfold GetInverse.
  destruct (GetInverse_loop_leaves (GetNestedTransformQueue q) [])
    as [(inv & Hmap & Hloop) | (Hloop & x & Hx & Hnone)].
  - exists inv. split; [exact Hmap |]. now rewrite Hloop, app_nil_r.
  - assert (Hf : invertible q = false) by (apply invertible_spec; now exists x).
    congruence.
Qed.

End CompositeTransformFacts.

(** ** Exact inverses *)

Section ExactInverseFacts.

Context {Point T : Type} `{ExactInverse Point T}.

(** The queue of inverses, reversed, undoes the queue. *)
Lemma inverse_queue_after (l inv : list T) (p : Point) :
  map leaf_GetInverseTransform l = map Some inv ->
  fold_right leaf_TransformPoint (fold_right leaf_TransformPoint p l) (rev inv) = p.
Proof.
  revert inv p.
  induction l as [| x l IH]; intros [| i inv] p Hmap; simpl in *;
    try discriminate; [reflexivity |].
  injection Hmap as Hx Hrest.
  rewrite fold_right_app. simpl.
  rewrite (inverse_after x i) by exact Hx.
  now apply IH.
Qed.

Lemma inverse_queue_before (l inv : list T) (p : Point) :
  map leaf_GetInverseTransform l = map Some inv ->
  fold_right leaf_TransformPoint (fold_right leaf_TransformPoint p (rev inv)) l = p.
Proof.
  revert inv p.
  induction l as [| x l IH]; intros [| i inv] p Hmap; simpl in *;
    try discriminate; [reflexivity |].
  injection Hmap as Hx Hrest.
  rewrite fold_right_app. simpl.
  rewrite (IH inv (leaf_TransformPoint i p)) by exact Hrest.
  now apply (inverse_before x i).
Qed.

End ExactInverseFacts.

(** ** Text *)

Lemma string_app_assoc (s t u : string) :
  ((s ++ t) ++ u = s ++ (t ++ u))%string.
Proof.
  induction s as [| a s IH]; simpl; congruence.
Qed.

Lemma string_app_empty (s : string) : (s ++ "" = s)%string.
Proof.
  induction s as [| a s IH]; simpl; congruence.
Qed.

Lemma prefix_app (s t : string) : prefix s (s ++ t) = true.
Proof.
  induction s as [| a s IH]; simpl.
  - destruct t; reflexivity.
  - destruct (ascii_dec a a) as [_ | Hneq]; [exact IH | now elim Hneq].
Qed.

Lemma mentions_prefix (needle s : string) :
  prefix needle s = true -> mentions needle s = true.
Proof.
  intros Hp. destruct s; cbn [mentions]; now rewrite Hp.
Qed.

Lemma mentions_app (needle pre post : string) :
  mentions needle (pre ++ needle ++ post) = true.
Proof.
  induction pre as [| a pre IH].
  - cbn [append]. apply mentions_prefix, prefix_app.
  - change (String a pre ++ needle ++ post)%string
      with (String a (pre ++ needle ++ post)).
    cbn [mentions]. rewrite IH.
    now destruct (prefix needle (String a (pre ++ needle ++ post))).
Qed.

Lemma mentions_PrintUsage (exec pre : string) :
  mentions (PrintUsage exec) (pre ++ PrintUsage exec) = true.
Proof.
  rewrite <- (mentions_app (PrintUsage exec) pre "").
  now rewrite string_app_empty.
Qed.

(** ** Reader and composition engine *)

Section ConverterFacts.

Context {Point T : Type} `{TransformBase Point T}.

Variable reader : string -> string -> Update (option (list (Transform T))).
Variable writer : string -> CompositeType T -> Update unit.

(** [ReadComposite] returns exactly when the transform list starts with a
    composite, and then returns that composite's queue. *)
Lemma ReadComposite_Return (regPath frameOfReference : string)
      (composite : CompositeType T) :
  ReadComposite reader regPath frameOfReference = Return composite
  <-> exists more,
      reader regPath frameOfReference
      = Updated (Some (Composite composite :: more)).
Proof.
  unfold ReadComposite.
  destruct (reader regPath frameOfReference)
    as [[[| [x | q] more] |] | description]; simpl; split;
    try discriminate; try (intros (more' & Hm); discriminate).
  - intros [= ->]. now exists more.
  - intros (more' & [= -> _]). reflexivity.
Qed.

Lemma ReadComposite_no_transforms (regPath frameOfReference : string) :
  yields_no_transforms reader regPath frameOfReference ->
  ReadComposite reader regPath frameOfReference = Throw (FrameNotFound frameOfReference).
Proof.
  unfold ReadComposite.
  intros [Hr | Hr]; rewrite Hr; reflexivity.
Qed.


(** [ComposeFixedToMoving] once both composites are read. *)
Lemma ComposeFixedToMoving_read (regPath fixedFoR movingFoR : string)
      (fixed moving : CompositeType T) :
  ReadComposite reader regPath fixedFoR = Return fixed ->
  ReadComposite reader regPath movingFoR = Return moving ->
  ComposeFixedToMoving reader regPath fixedFoR movingFoR
  = match GetInverse (FlattenTransformQueue fixed) with
    | None => Throw NotInvertible
    | Some fixedInverse =>
        Return (map Leaf (GetNestedTransformQueue moving
                          ++ GetNestedTransformQueue fixedInverse))
    end.
Proof.
  intros Hf Hm.
  unfold ComposeFixedToMoving. rewrite Hf, Hm. simpl.
  destruct (GetInverse (FlattenTransformQueue fixed)); [| reflexivity].
  rewrite Flatten_pair, FlattenTransformQueue_nested.
  now rewrite GetNestedTransformQueue_map_Leaf.
Qed.

Lemma ComposeFixedToMoving_invertible (regPath fixedFoR movingFoR : string)
      (fixed moving : CompositeType T) :
  ReadComposite reader regPath fixedFoR = Return fixed ->
  ReadComposite reader regPath movingFoR = Return moving ->
  invertible fixed = true ->
  exists inv,
    map leaf_GetInverseTransform (GetNestedTransformQueue fixed) = map Some inv
    /\ GetInverse (FlattenTransformQueue fixed) = Some (map Leaf (rev inv))
    /\ ComposeFixedToMoving reader regPath fixedFoR movingFoR
       = Return (map Leaf (GetNestedTransformQueue moving ++ rev inv)).
Proof.
  intros Hf Hm Hinv.
  destruct (GetInverse_Flatten_Some fixed Hinv) as (inv & Hmap & Hget).
  exists inv. split; [exact Hmap |]. split; [exact Hget |].
  rewrite (ComposeFixedToMoving_read _ _ _ _ _ Hf Hm), Hget.
  now rewrite GetNestedTransformQueue_map_Leaf.
Qed.

Lemma ComposeFixedToMoving_not_invertible (regPath fixedFoR movingFoR : string)
      (fixed moving : CompositeType T) :
  ReadComposite reader regPath fixedFoR = Return fixed ->
  ReadComposite reader regPath movingFoR = Return moving ->
  invertible fixed = false ->
  ComposeFixedToMoving reader regPath fixedFoR movingFoR = Throw NotInvertible.
Proof.
  intros Hf Hm Hinv.
  rewrite (ComposeFixedToMoving_read _ _ _ _ _ Hf Hm).
  apply GetInverse_Flatten_None in Hinv. now rewrite Hinv.
Qed.

(** A return of [ComposeFixedToMoving] means that both composites were read
    and the fixed one is invertible. *)
Lemma ComposeFixedToMoving_Return (regPath fixedFoR movingFoR : string)
      (final : CompositeType T) :
  ComposeFixedToMoving reader regPath fixedFoR movingFoR = Return final ->
  exists fixed moving,
    ReadComposite reader regPath fixedFoR = Return fixed
    /\ ReadComposite reader regPath movingFoR = Return moving
    /\ invertible fixed = true.
Proof.
  intros Hc.
  destruct (ReadComposite reader regPath fixedFoR) as [fixed | e] eqn:Hf;
    [| unfold ComposeFixedToMoving in Hc; rewrite Hf in Hc; discriminate].
  destruct (ReadComposite reader regPath movingFoR) as [moving | e] eqn:Hm;
    [| unfold ComposeFixedToMoving in Hc; rewrite Hf, Hm in Hc; discriminate].
  exists fixed, moving. repeat split.
  destruct (invertible fixed) eqn:Hinv; [reflexivity |].
  rewrite (ComposeFixedToMoving_not_invertible _ _ _ _ _ Hf Hm Hinv) in Hc.
  discriminate.
Qed.

Lemma ExtractSingle_read (regPath frameOfReference : string)
      (fixed : CompositeType T) :
  ReadComposite reader regPath frameOfReference = Return fixed ->
  ExtractSingle reader regPath frameOfReference
  = Return (map Leaf (GetNestedTransformQueue fixed)).
Proof.
  intros Hf. unfold ExtractSingle. rewrite Hf. simpl.
  now rewrite Flatten_single.
Qed.

Lemma ExtractSingle_Return (regPath frameOfReference : string)
      (final : CompositeType T) :
  ExtractSingle reader regPath frameOfReference = Return final ->
  exists fixed,
    ReadComposite reader regPath frameOfReference = Return fixed
    /\ final = map Leaf (GetNestedTransformQueue fixed).
Proof.
  intros He.
  destruct (ReadComposite reader regPath frameOfReference) as [fixed | e] eqn:Hf;
    [| unfold ExtractSingle in He; rewrite Hf in He; discriminate].
  exists fixed. split; [reflexivity |].
  rewrite (ExtractSingle_read _ _ _ Hf) in He. congruence.
Qed.

(** [main] after the arguments are parsed. *)
Lemma main_Parsed (exec : string) (argv : list string) (args : Arguments) :
  ParseArguments exec argv = Parsed args ->
  main reader writer exec argv
  = match match fixedFoR args, movingFoR args with
          | Some fixed, Some moving =>
              ComposeFixedToMoving reader (inputReg args) fixed moving
          | Some fixed, None => ExtractSingle reader (inputReg args) fixed
          | None, _ => Throw MissingFixedFoR
          end with
    | Throw e => mkOutcome EXIT_FAILURE (report e) []
    | Return transform =>
        match run_Update (writer (outputTransform args) transform) with
        | Return _ => mkOutcome EXIT_SUCCESS "" [(outputTransform args, transform)]
        | Throw e =>
            mkOutcome EXIT_FAILURE (report e) [(outputTransform args, transform)]
        end
    end.
Proof.
  intros Hp. unfold main. now rewrite Hp.
Qed.

End ConverterFacts.

(** ** The composition engine *)

Section CompositionEngine.

Context {Point T : Type} `{TransformBase Point T}.

Variable reader : string -> string -> Update (option (list (Transform T))).

(** C1: the composite returned by [ComposeFixedToMoving] acts on every
    point [p] as the moving composite applied to the inverse of the fixed
    composite applied to [p]: it is M after the inverse of F, from fixed
    coordinates to moving coordinates.  The inverse is the composite that
    [GetInverse] gives for the flattened fixed composite, and with exact
    inverses of the elements it undoes the fixed composite on both
    sides. *)
Theorem ComposeFixedToMoving_is_moving_after_fixed_inverse
        {E : ExactInverse Point T}
        (regPath fixedFoR movingFoR : string) (final : CompositeType T) :
  ComposeFixedToMoving reader regPath fixedFoR movingFoR = Return final ->
  exists fixed moving fixedInverse,
    ReadComposite reader regPath fixedFoR = Return fixed
    /\ ReadComposite reader regPath movingFoR = Return moving
    /\ GetInverse (FlattenTransformQueue fixed) = Some fixedInverse
    /\ (forall p, CompositeTransformPoint fixedInverse
                    (CompositeTransformPoint fixed p) = p)
    /\ (forall p, CompositeTransformPoint fixed
                    (CompositeTransformPoint fixedInverse p) = p)
    /\ (forall p, CompositeTransformPoint final p
                  = CompositeTransformPoint moving
                      (CompositeTransformPoint fixedInverse p)).
Proof.
  intros Hc.
  destruct (ComposeFixedToMoving_Return reader _ _ _ _ Hc)
    as (fixed & moving & Hf & Hm & Hinv).
  destruct (ComposeFixedToMoving_invertible reader _ _ _ _ _ Hf Hm Hinv)
    as (inv & Hmap & Hget & Hret).
  exists fixed, moving, (map Leaf (rev inv)).
  repeat split; try assumption.
  - intros p.
    rewrite CompositeTransformPoint_map_Leaf, (CompositeTransformPoint_nested fixed).
    now apply inverse_queue_after.
  - intros p.
    rewrite CompositeTransformPoint_map_Leaf, (CompositeTransformPoint_nested fixed).
    now apply inverse_queue_before.
  - intros p.
    assert (Hfinal : final = map Leaf (GetNestedTransformQueue moving ++ rev inv))
      by congruence.
    rewrite Hfinal, map_app, CompositeTransformPoint_app.
    rewrite (CompositeTransformPoint_map_Leaf (GetNestedTransformQueue moving)).
    now rewrite <- CompositeTransformPoint_nested.
Qed.

(** C2: when [ComposeFixedToMoving] returns, and the flattened fixed
    composite has the queue [F1, ..., Fn] and the flattened moving composite
    the queue [M1, ..., Mm], the queue of the returned composite is
    [M1, ..., Mm] followed by the inverses of [Fn, ..., F1]; the inverse of
    the fixed composite is the reversed queue of inverses. *)
Theorem ComposeFixedToMoving_queue
        (regPath fixedFoR movingFoR : string)
        (fixed moving final : CompositeType T) (Fs Ms : list T) :
  ReadComposite reader regPath fixedFoR = Return fixed ->
  ReadComposite reader regPath movingFoR = Return moving ->
  FlattenTransformQueue fixed = map Leaf Fs ->
  FlattenTransformQueue moving = map Leaf Ms ->
  ComposeFixedToMoving reader regPath fixedFoR movingFoR = Return final ->
  exists Finv,
    map leaf_GetInverseTransform Fs = map Some Finv
    /\ GetInverse (FlattenTransformQueue fixed) = Some (map Leaf (rev Finv))
    /\ final = map Leaf Ms ++ map Leaf (rev Finv).
Proof.
  intros Hf Hm HFs HMs Hc.
  rewrite FlattenTransformQueue_nested in HFs, HMs.
  apply (f_equal GetNestedTransformQueue) in HFs, HMs.
  rewrite !GetNestedTransformQueue_map_Leaf in HFs, HMs.
  destruct (ComposeFixedToMoving_Return reader _ _ _ _ Hc)
    as (fixed' & moving' & Hf' & Hm' & Hinv).
  assert (fixed' = fixed) by congruence. subst fixed'.
  destruct (ComposeFixedToMoving_invertible reader _ _ _ _ _ Hf Hm Hinv)
    as (inv & Hmap & Hget & Hret).
  exists inv. rewrite <- HFs, <- HMs, <- map_app.
  repeat split; try assumption. congruence.
Qed.


(** C3, as the code has it: [ReadComposite] returns the queue of the first
    composite of the transform list as it is, without flattening it; the
    callers flatten: every composite that [ExtractSingle] or
    [ComposeFixedToMoving] returns is flattened. *)
Theorem ReadComposite_as_read_callers_flatten
        (regPath frameOfReference : string) :
  (forall composite more,
      reader regPath frameOfReference = Updated (Some (Composite composite :: more)) ->
      ReadComposite reader regPath frameOfReference = Return composite)
  /\ (forall final,
         ExtractSingle reader regPath frameOfReference = Return final ->
         flattened final = true)
  /\ (forall movingFoR final,
         ComposeFixedToMoving reader regPath frameOfReference movingFoR = Return final ->
         flattened final = true).
Proof.
  repeat split.
  - intros composite more Hr. apply ReadComposite_Return. now exists more.
  - intros final He.
    destruct (ExtractSingle_Return reader _ _ _ He) as (fixed & _ & ->).
    apply flattened_map_Leaf.
  - intros movingFoR final Hc.
    destruct (ComposeFixedToMoving_Return reader _ _ _ _ Hc)
      as (fixed & moving & Hf & Hm & Hinv).
    destruct (ComposeFixedToMoving_invertible reader _ _ _ _ _ Hf Hm Hinv)
      as (inv & _ & _ & Hret).
    assert (Hfinal : final = map Leaf (GetNestedTransformQueue moving ++ rev inv))
      by congruence.
    rewrite Hfinal. apply flattened_map_Leaf.
Qed.

(** C7, as the code has it: for a frame of reference whose transform list
    starts with a composite, [ExtractSingle] returns a flattened composite
    whose queue is the nested queue of that composite, which is non-empty
    exactly when the composite holds a transform, and whose action on every
    point is the action of the composite: the transforms the reader gave,
    applied one after the other. *)
Theorem ExtractSingle_flattened_same_action
        (regPath frameOfReference : string)
        (composite : CompositeType T) (more : list (Transform T)) :
  reader regPath frameOfReference = Updated (Some (Composite composite :: more)) ->
  exists final,
    ExtractSingle reader regPath frameOfReference = Return final
    /\ flattened final = true
    /\ final = map Leaf (GetNestedTransformQueue composite)
    /\ (final <> [] <-> GetNestedTransformQueue composite <> [])
    /\ (forall p, CompositeTransformPoint final p
                  = CompositeTransformPoint composite p)
    /\ (forall p, CompositeTransformPoint final p
                  = fold_right leaf_TransformPoint p
                      (GetNestedTransformQueue composite)).
Proof.
  intros Hr.
  assert (Hf : ReadComposite reader regPath frameOfReference = Return composite)
    by (apply ReadComposite_Return; now exists more).
  exists (map Leaf (GetNestedTransformQueue composite)).
  split; [now apply ExtractSingle_read |].
  split; [apply flattened_map_Leaf |].
  split; [reflexivity |].
  split.
  - destruct (GetNestedTransformQueue composite); simpl; split; congruence.
  - split; intros p.
    + rewrite CompositeTransformPoint_map_Leaf.
      now rewrite <- CompositeTransformPoint_nested.
    + apply CompositeTransformPoint_map_Leaf.
Qed.

End CompositionEngine.

(** The line that reports a frame that was not found names the frame. *)
Lemma mentions_FrameNotFound (frameOfReference : string) :
  mentions frameOfReference (report (FrameNotFound frameOfReference)) = true.
Proof.
  change (report (FrameNotFound frameOfReference))
    with ("Error: "
          ++ ("No transforms found for frame of reference " ++ frameOfReference)
          ++ nl)%string.
  rewrite (string_app_assoc _ frameOfReference nl).
  rewrite <- (string_app_assoc "Error: ").
  apply mentions_app.
Qed.

(** ** Command-line parsing *)

(** Induction on a token list, two tokens at a time. *)
Lemma list_pair_ind (A : Type) (P : list A -> Prop) :
  P [] ->
  (forall x, P [x]) ->
  (forall x y l, P l -> P (x :: y :: l)) ->
  forall l, P l.
Proof.
  intros Hnil Hone Hstep.
  assert (Hboth : forall l, P l /\ forall x, P (x :: l)).
  { induction l as [| y l [IHl IHx]]; split; auto. }
  intros l. apply Hboth.
Qed.

Lemma Field_eqb_eq (f g : Field) : Field_eqb f g = true <-> f = g.
Proof.
  destruct f, g; simpl; split; congruence.
Qed.

(** The tokens that name a field. *)
Lemma field_of_flag_Some (key : string) (f : Field) :
  field_of_flag key = Some f ->
  match f with
  | FInput => key = "--input" \/ key = "-i"
  | FOutput => key = "--output" \/ key = "-o"
  | FFixed => key = "--fixed" \/ key = "--fixed"
  | FMoving => key = "--moving" \/ key = "--moving"
  end.
Proof.
  unfold field_of_flag.
  destruct (key =? "--input") eqn:E1; [apply String.eqb_eq in E1 |];
    [intros [= <-]; now left |].
  destruct (key =? "-i") eqn:E2; [apply String.eqb_eq in E2 |];
    [intros [= <-]; now right |].
  destruct (key =? "--output") eqn:E3; [apply String.eqb_eq in E3 |];
    [intros [= <-]; now left |].
  destruct (key =? "-o") eqn:E4; [apply String.eqb_eq in E4 |];
    [intros [= <-]; now right |].
  destruct (key =? "--fixed") eqn:E5; [apply String.eqb_eq in E5 |];
    [intros [= <-]; now left |].
  destruct (key =? "--moving") eqn:E6; [apply String.eqb_eq in E6 |];
    [intros [= <-]; now left |].
  discriminate.
Qed.

(** A value-taking flag with a token after it sets its field and goes on
    behind the value. *)
Lemma ParseArguments_loop_flag (exec : string) (args : Arguments)
      (key value : string) (rest : list string) (f : Field) :
  field_of_flag key = Some f ->
  ParseArguments_loop exec args (key :: value :: rest)
  = ParseArguments_loop exec (set_field f value args) rest.
Proof.
  intros Hf. apply field_of_flag_Some in Hf.
  destruct f, Hf as [-> | ->]; reflexivity.
Qed.

(** A value-taking flag that is the last token falls through to the last
    branch of the chain. *)
Lemma ParseArguments_loop_last_flag (exec : string) (args : Arguments)
      (key : string) (f : Field) :
  field_of_flag key = Some f ->
  ParseArguments_loop exec args [key]
  = Exit EXIT_FAILURE ("Unknown argument: " ++ key ++ nl ++ PrintUsage exec).
Proof.
  intros Hf. apply field_of_flag_Some in Hf.
  destruct f, Hf as [-> | ->]; reflexivity.
Qed.

(** Any other token ends the loop, whatever follows it. *)
Lemma ParseArguments_loop_other (exec : string) (args : Arguments)
      (key : string) (rest : list string) :
  field_of_flag key = None ->
  ParseArguments_loop exec args (key :: rest) = ParseArguments_else exec key.
Proof.
  unfold field_of_flag. intros Hf. destruct rest as [| value rest']; simpl.
  - reflexivity.
  - destruct ((key =? "--input") || (key =? "-i")); [discriminate |].
    destruct ((key =? "--output") || (key =? "-o")); [discriminate |].
    destruct (key =? "--fixed"); [discriminate |].
    destruct (key =? "--moving"); [discriminate |].
    reflexivity.
Qed.

Lemma ParseArguments_else_Exit (exec key : string) :
  exists status err,
    ParseArguments_else exec key = Exit status err
    /\ mentions (PrintUsage exec) err = true
    /\ (status = EXIT_FAILURE
        \/ (status = EXIT_SUCCESS /\ (key =? "--help") || (key =? "-h") = true)).
Proof.
  unfold ParseArguments_else.
  destruct ((key =? "--help") || (key =? "-h")) eqn:Hh.
  - exists EXIT_SUCCESS, (PrintUsage exec). repeat split.
    + apply (mentions_PrintUsage exec "").
    + now right.
  - exists EXIT_FAILURE, ("Unknown argument: " ++ key ++ nl ++ PrintUsage exec)%string.
    repeat split.
    + rewrite <- (string_app_assoc key), <- string_app_assoc.
      apply mentions_PrintUsage.
    + now left.
Qed.

(** When the loop ends the process, the usage text is on the diagnostic
    stream, and the status is a failure unless help was asked for. *)
Lemma ParseArguments_loop_Exit (exec : string) (argv : list string) :
  forall (args : Arguments) (status : Z) (err : string),
    ParseArguments_loop exec args argv = Exit status err ->
    mentions (PrintUsage exec) err = true
    /\ (status = EXIT_FAILURE
        \/ (status = EXIT_SUCCESS /\ help_requested argv = true)).
Proof.
  induction argv as [| key | key value rest IH] using list_pair_ind;
    intros args status err Hl.
  - discriminate.
  - destruct (ParseArguments_else_Exit exec key) as (st & e & He & Hm & Hs).
    assert (Hl' : ParseArguments_loop exec args [key] = ParseArguments_else exec key)
      by reflexivity.
    rewrite Hl', He in Hl. injection Hl as <- <-.
    split; [exact Hm |].
    destruct Hs as [Hs | [Hs Hh]]; [now left | right].
    split; [exact Hs |]. unfold help_requested. simpl. now rewrite Hh.
  - destruct (field_of_flag key) as [f |] eqn:Hf.
    + rewrite (ParseArguments_loop_flag _ _ _ _ _ _ Hf) in Hl.
      destruct (IH _ _ _ Hl) as [Hm Hs].
      split; [exact Hm |].
      destruct Hs as [Hs | [Hs Hh]]; [now left | right].
      split; [exact Hs |]. unfold help_requested in *. simpl.
      rewrite Hh. now rewrite !orb_true_r.
    + rewrite (ParseArguments_loop_other _ _ _ _ Hf) in Hl.
      destruct (ParseArguments_else_Exit exec key) as (st & e & He & Hm & Hs).
      rewrite He in Hl. injection Hl as <- <-.
      split; [exact Hm |].
      destruct Hs as [Hs | [Hs Hh]]; [now left | right].
      split; [exact Hs |]. unfold help_requested. simpl. now rewrite Hh.
Qed.

Lemma field_value_set_field (f g : Field) (value : string) (args : Arguments) :
  field_value g (set_field f value args)
  = if Field_eqb g f then Some value else field_value g args.
Proof.
  destruct f, g; reflexivity.
Qed.

(** A field that no token names keeps its value through the loop. *)
Lemma ParseArguments_loop_keeps (exec : string) (g : Field) (argv : list string) :
  forall (args args' : Arguments),
    flag_given g argv = false ->
    ParseArguments_loop exec args argv = Parsed args' ->
    field_value g args' = field_value g args.
Proof.
  induction argv as [| key | key value rest IH] using list_pair_ind;
    intros args args' Hg Hl.
  - injection Hl as <-. reflexivity.
  - assert (Hl' : ParseArguments_loop exec args [key] = ParseArguments_else exec key)
      by reflexivity.
    destruct (ParseArguments_else_Exit exec key) as (st & e & He & _).
    rewrite Hl', He in Hl. discriminate.
  - unfold flag_given in Hg. simpl in Hg.
    apply orb_false_iff in Hg. destruct Hg as [Hkey Hg].
    apply orb_false_iff in Hg. destruct Hg as [_ Hrest].
    destruct (field_of_flag key) as [f |] eqn:Hf.
    + rewrite (ParseArguments_loop_flag _ _ _ _ _ _ Hf) in Hl.
      rewrite (IH _ _ Hrest Hl), field_value_set_field.
      unfold names_field in Hkey. rewrite Hf in Hkey. now rewrite Hkey.
    + rewrite (ParseArguments_loop_other _ _ _ _ Hf) in Hl.
      destruct (ParseArguments_else_Exit exec key) as (st & e & He & _).
      rewrite He in Hl. discriminate.
Qed.

Lemma last_value_from (f : Field) (pairs : list (string * string))
      (acc : option string) :
  fold_left (fun acc kv => if names_field f (fst kv) then Some (snd kv) else acc)
            pairs acc
  = match last_value f pairs with
    | Some v => Some v
    | None => acc
    end.
Proof.
  unfold last_value. revert acc.
  induction pairs as [| [k v] pairs IH]; intros acc; simpl.
  - reflexivity.
  - rewrite (IH (if names_field f k then Some v else acc)).
    rewrite (IH (if names_field f k then Some v else None)).
    destruct (fold_left _ pairs None); [reflexivity |].
    now destruct (names_field f k).
Qed.

(** On a command line of flag and value pairs the loop ends with every
    field at the value of the last pair that names it. *)
Lemma ParseArguments_loop_pairs (exec : string) (pairs : list (string * string)) :
  forall (args : Arguments),
    forallb (fun kv => is_value_flag (fst kv)) pairs = true ->
    exists args',
      ParseArguments_loop exec args (tokens pairs) = Parsed args'
      /\ forall g, field_value g args'
                   = match last_value g pairs with
                     | Some v => Some v
                     | None => field_value g args
                     end.
Proof.
  induction pairs as [| [k v] pairs IH]; intros args Hall.
  - exists args. split; reflexivity.
  - simpl in Hall. apply andb_true_iff in Hall. destruct Hall as [Hk Hall].
    unfold is_value_flag in Hk.
    destruct (field_of_flag k) as [f |] eqn:Hf; [| discriminate].
    destruct (IH (set_field f v args) Hall) as (args' & Hl & Hv).
    exists args'. split.
    + change (tokens ((k, v) :: pairs)) with (k :: v :: tokens pairs).
      now rewrite (ParseArguments_loop_flag _ _ _ _ _ _ Hf).
    + intros g. rewrite (Hv g), field_value_set_field.
      unfold last_value at 2. simpl. rewrite last_value_from.
      destruct (last_value g pairs); [reflexivity |].
      unfold names_field. rewrite Hf. now destruct (Field_eqb g f).
Qed.

(** The loop goes through a prefix of flag and value pairs and continues
    behind it. *)
Lemma ParseArguments_loop_tokens_app (exec : string)
      (pairs : list (string * string)) (rest : list string) :
  forall (args : Arguments),
    forallb (fun kv => is_value_flag (fst kv)) pairs = true ->
    exists args',
      ParseArguments_loop exec args (tokens pairs ++ rest)
      = ParseArguments_loop exec args' rest.
Proof.
  induction pairs as [| [k v] pairs IH]; intros args Hall.
  - exists args. reflexivity.
  - simpl in Hall. apply andb_true_iff in Hall. destruct Hall as [Hk Hall].
    unfold is_value_flag in Hk.
    destruct (field_of_flag k) as [f |] eqn:Hf; [| discriminate].
    destruct (IH (set_field f v args) Hall) as (args' & Hl).
    exists args'.
    change (tokens ((k, v) :: pairs) ++ rest) with (k :: v :: (tokens pairs ++ rest)).
    now rewrite (ParseArguments_loop_flag _ _ _ _ _ _ Hf).
Qed.

(** The help tokens are no value-taking flags. *)
Lemma help_is_no_flag (key : string) :
  (key =? "--help") || (key =? "-h") = true -> field_of_flag key = None.
Proof.
  intros Hh. apply orb_true_iff in Hh.
  destruct Hh as [Hh | Hh]; apply String.eqb_eq in Hh; subst key; reflexivity.
Qed.

(** The loop ends the process with success exactly when it gets to a help
    token as a key, and then it wrote the usage text alone. *)
Lemma ParseArguments_loop_success (exec : string) (argv : list string) :
  forall (args : Arguments),
    (exists err, ParseArguments_loop exec args argv = Exit EXIT_SUCCESS err)
    <-> help_reached argv.
Proof.
  assert (Helse : forall key err,
             ParseArguments_else exec key = Exit EXIT_SUCCESS err ->
             (key =? "--help") || (key =? "-h") = true).
  { intros key err. unfold ParseArguments_else.
    destruct ((key =? "--help") || (key =? "-h")); [reflexivity | discriminate]. }
  intros args. split.
  - revert args.
    induction argv as [| key | key value rest IH] using list_pair_ind;
      intros args (err & Hl).
    + discriminate.
    + exists [], key, []. repeat split. apply (Helse key err). exact Hl.
    + destruct (field_of_flag key) as [f |] eqn:Hf.
      * rewrite (ParseArguments_loop_flag _ _ _ _ _ _ Hf) in Hl.
        destruct (IH _ (ex_intro _ err Hl)) as (pairs & k & rest' & Hall & -> & Hh).
        exists ((key, value) :: pairs), k, rest'. repeat split; try assumption.
        simpl. unfold is_value_flag. now rewrite Hf.
      * rewrite (ParseArguments_loop_other _ _ _ _ Hf) in Hl.
        exists [], key, (value :: rest). repeat split. apply (Helse key err). exact Hl.
  - intros (pairs & key & rest & Hall & -> & Hh).
    destruct (ParseArguments_loop_tokens_app exec pairs (key :: rest) args Hall)
      as (args' & ->).
    rewrite (ParseArguments_loop_other _ _ _ _ (help_is_no_flag key Hh)).
    unfold ParseArguments_else. rewrite Hh. now exists (PrintUsage exec).
Qed.

(** C10: a value-taking flag is rejected as an unknown argument, with the
    usage text and a failure exit, when it is the last token; with a token
    after it, that token is taken as its value, whatever it looks like, and
    parsing goes on behind it; on a command line of flag and value pairs the
    field ends with the value of the last pair that names it. *)
Theorem ParseArguments_value_flags
        (exec : string) (args : Arguments) (key : string) (f : Field) :
  field_of_flag key = Some f ->
  ParseArguments_loop exec args [key]
  = Exit EXIT_FAILURE ("Unknown argument: " ++ key ++ nl ++ PrintUsage exec)
  /\ (forall value rest,
         ParseArguments_loop exec args (key :: value :: rest)
         = ParseArguments_loop exec (set_field f value args) rest)
  /\ (forall pairs,
         forallb (fun kv => is_value_flag (fst kv)) pairs = true ->
         exists args',
           ParseArguments_loop exec args (tokens pairs) = Parsed args'
           /\ field_value f args'
              = match last_value f pairs with
                | Some v => Some v
                | None => field_value f args
                end).
Proof.
  intros Hf. split; [| split].
  - now apply (ParseArguments_loop_last_flag exec args key f).
  - intros value rest. now apply ParseArguments_loop_flag.
  - intros pairs Hall.
    destruct (ParseArguments_loop_pairs exec pairs args Hall) as (args' & Hl & Hv).
    exists args'. split; [exact Hl | apply Hv].
Qed.

(** ** The driver *)

Section Driver.

Context {Point T : Type} `{TransformBase Point T}.

Variable reader : string -> string -> Update (option (list (Transform T))).
Variable writer : string -> CompositeType T -> Update unit.

(** A composite that was read did not come from an empty transform list. *)
Lemma ReadComposite_Return_transforms (regPath frameOfReference : string)
      (composite : CompositeType T) :
  ReadComposite reader regPath frameOfReference = Return composite ->
  ~ yields_no_transforms reader regPath frameOfReference.
Proof.
  intros Hr Hno.
  rewrite (ReadComposite_no_transforms reader _ _ Hno) in Hr. discriminate.
Qed.

(** A run that fails before the writer. *)
Lemma main_Throw (exec : string) (argv : list string) (args : Arguments)
      (e : Exception) :
  ParseArguments exec argv = Parsed args ->
  match fixedFoR args, movingFoR args with
  | Some fixed, Some moving =>
      ComposeFixedToMoving reader (inputReg args) fixed moving
  | Some fixed, None => ExtractSingle reader (inputReg args) fixed
  | None, _ => Throw MissingFixedFoR
  end = Throw e ->
  main reader writer exec argv = mkOutcome EXIT_FAILURE (report e) [].
Proof.
  intros Hp He. rewrite (main_Parsed reader writer _ _ _ Hp).
  unfold MissingFixedFoR in *. now rewrite He.
Qed.

(** C4, as the code has it: when no token names the input or the output,
    the usage text is written and the writer is not called; the exit status
    is a success exactly when the loop gets to a help token as a key (behind
    value-taking flags with their values only), and a failure otherwise, in
    particular whenever no help token is on the command line; when no token
    names the fixed frame and the arguments parse, the run writes the one
    line of the missing fixed frame error, without the usage text, does not
    call the writer, and exits with a failure. *)
Theorem missing_flags_outcome (exec : string) (argv : list string) :
  (flag_given FInput argv = false \/ flag_given FOutput argv = false ->
   mentions (PrintUsage exec) (cerr (main reader writer exec argv)) = true
   /\ writer_calls (main reader writer exec argv) = []
   /\ (help_requested argv = false ->
       exit_status (main reader writer exec argv) = EXIT_FAILURE)
   /\ (exit_status (main reader writer exec argv) = EXIT_SUCCESS
       <-> help_reached argv)
   /\ (~ help_reached argv ->
       exit_status (main reader writer exec argv) = EXIT_FAILURE))
  /\ (flag_given FFixed argv = false ->
      forall args,
        ParseArguments exec argv = Parsed args ->
        main reader writer exec argv
        = mkOutcome EXIT_FAILURE (report MissingFixedFoR) []
        /\ mentions (PrintUsage exec) (report MissingFixedFoR) = false
        /\ EXIT_FAILURE <> 0%Z).
Proof.
  split.
  - intros Hmissing. unfold main, ParseArguments.
    destruct (ParseArguments_loop exec no_arguments argv) as [args | status err] eqn:Hl.
    + assert (Hempty : (inputReg args =? "") || (outputTransform args =? "") = true).
      { destruct Hmissing as [Hg | Hg];
          pose proof (ParseArguments_loop_keeps exec _ argv _ _ Hg Hl) as Hk;
          simpl in Hk; injection Hk as ->; simpl; auto using orb_true_r. }
      assert (Hnohelp : ~ help_reached argv).
      { intros Hr.
        apply (ParseArguments_loop_success exec argv no_arguments) in Hr.
        destruct Hr as (err & Hr). congruence. }
      rewrite Hempty. simpl.
      split; [apply (mentions_PrintUsage exec "") |].
      split; [reflexivity |]. split; [reflexivity |].
      split; [| reflexivity].
      split; [discriminate | intros Hr; now elim Hnohelp].
    + destruct (ParseArguments_loop_Exit exec argv _ _ _ Hl) as [Hm Hs].
      simpl.
      split; [exact Hm |]. split; [reflexivity |].
      split; [intros Hh; destruct Hs as [Hs | [_ Hs]]; [exact Hs | congruence] |].
      assert (Hiff : status = EXIT_SUCCESS <-> help_reached argv).
      { rewrite <- (ParseArguments_loop_success exec argv no_arguments). split.
        - intros ->. now exists err.
        - intros (err' & Hl'). congruence. }
      split; [exact Hiff |].
      intros Hnot. destruct Hs as [Hs | [Hs _]]; [exact Hs |].
      elim Hnot. now apply Hiff.
  - intros Hg args Hp.
    assert (Hfixed : fixedFoR args = None).
    { unfold ParseArguments in Hp.
      destruct (ParseArguments_loop exec no_arguments argv) as [args' | ? ?] eqn:Hl;
        [| discriminate].
      destruct ((inputReg args' =? "") || (outputTransform args' =? ""));
        [discriminate |].
      injection Hp as <-.
      apply (ParseArguments_loop_keeps exec FFixed argv _ _ Hg Hl). }
    repeat split.
    + apply (main_Throw exec argv args); [exact Hp |]. now rewrite Hfixed.
    + discriminate.
Qed.

(** C5: when a requested frame of reference has no transforms in the file
    (the reader's transform list for it is null or empty), the run fails
    with the frame-not-found error: the exit status is a failure, the
    writer is not called, and the line on the diagnostic stream names the
    frame of reference. *)
Theorem FrameNotFound_reported
        (exec : string) (argv : list string) (args : Arguments)
        (frameOfReference : string) :
  ParseArguments exec argv = Parsed args ->
  frame_absent reader args frameOfReference ->
  main reader writer exec argv
  = mkOutcome EXIT_FAILURE (report (FrameNotFound frameOfReference)) []
  /\ exit_status (main reader writer exec argv) <> 0%Z
  /\ writer_calls (main reader writer exec argv) = []
  /\ mentions frameOfReference (cerr (main reader writer exec argv)) = true.
Proof.
  intros Hp Habsent.
  assert (Hmain : main reader writer exec argv
                  = mkOutcome EXIT_FAILURE (report (FrameNotFound frameOfReference)) []).
  { apply (main_Throw exec argv args); [exact Hp |].
    destruct Habsent as [[Hfixed Hno] | (fixedUID & fixed & Hfixed & Hmoving & Hf & Hno)].
    - rewrite Hfixed.
      pose proof (ReadComposite_no_transforms reader _ _ Hno) as Hr.
      destruct (movingFoR args) as [moving |].
      + unfold ComposeFixedToMoving. now rewrite Hr.
      + unfold ExtractSingle. now rewrite Hr.
    - rewrite Hfixed, Hmoving.
      pose proof (ReadComposite_no_transforms reader _ _ Hno) as Hr.
      unfold ComposeFixedToMoving. now rewrite Hf, Hr. }
  rewrite Hmain. cbn [exit_status writer_calls cerr].
  repeat split; try discriminate.
  apply mentions_FrameNotFound.
Qed.

(** C6, as the code has it: in pair-composition mode, when the fixed
    composite holds a transform without an inverse, the run exits with a
    failure and never calls the writer.  The moving composite is read
    before the inversion is tried: when it is read, the line on the
    diagnostic stream is the one of the not-invertible error; when reading
    it throws, the line is the one of that exception. *)
Theorem NotInvertible_aborts_before_write
        (exec : string) (argv : list string) (args : Arguments)
        (fixedUID movingUID : string) (fixed : CompositeType T) (x : T) :
  ParseArguments exec argv = Parsed args ->
  fixedFoR args = Some fixedUID ->
  movingFoR args = Some movingUID ->
  ReadComposite reader (inputReg args) fixedUID = Return fixed ->
  In x (GetNestedTransformQueue fixed) ->
  leaf_GetInverseTransform x = None ->
  exit_status (main reader writer exec argv) = EXIT_FAILURE
  /\ exit_status (main reader writer exec argv) <> 0%Z
  /\ writer_calls (main reader writer exec argv) = []
  /\ (forall moving,
         ReadComposite reader (inputReg args) movingUID = Return moving ->
         main reader writer exec argv
         = mkOutcome EXIT_FAILURE (report NotInvertible) [])
  /\ (forall e,
         ReadComposite reader (inputReg args) movingUID = Throw e ->
         main reader writer exec argv
         = mkOutcome EXIT_FAILURE (report e) []).
Proof.
  intros Hp Hfixed Hmoving Hf Hin Hx.
  assert (Hinv : invertible fixed = false)
    by (apply invertible_spec; now exists x).
  assert (He : exists e,
             ComposeFixedToMoving reader (inputReg args) fixedUID movingUID = Throw e
             /\ (forall moving,
                    ReadComposite reader (inputReg args) movingUID = Return moving ->
                    e = NotInvertible)
             /\ (forall e',
                    ReadComposite reader (inputReg args) movingUID = Throw e' ->
                    e = e')).
  { destruct (ReadComposite reader (inputReg args) movingUID) as [moving | e] eqn:Hm.
    - exists NotInvertible. split; [| split; [reflexivity | discriminate]].
      now apply (ComposeFixedToMoving_not_invertible reader _ _ _ fixed moving).
    - exists e. split; [| split; [discriminate | congruence]].
      unfold ComposeFixedToMoving. now rewrite Hf, Hm. }
  destruct He as (e & He & Hkind & Hother).
  assert (Hmain : main reader writer exec argv = mkOutcome EXIT_FAILURE (report e) []).
  { apply (main_Throw exec argv args); [exact Hp |]. now rewrite Hfixed, Hmoving. }
  rewrite Hmain. simpl.
  split; [reflexivity |]. split; [discriminate |]. split; [reflexivity |].
  split.
  - intros moving Hm. now rewrite (Hkind moving Hm).
  - intros e' Hm. now rewrite (Hother e' Hm).
Qed.

(** Where a composite handed to the writer comes from: it is flattened and
    was built from composites that [ReadComposite] returned, and it is
    non-empty exactly when a composite that was read holds a transform. *)
Lemma writer_call_origin
        (exec : string) (argv : list string)
        (fileName : string) (transform : CompositeType T) :
  In (fileName, transform) (writer_calls (main reader writer exec argv)) ->
  exists args fixedUID fixed,
    ParseArguments exec argv = Parsed args
    /\ fileName = outputTransform args
    /\ fixedFoR args = Some fixedUID
    /\ ReadComposite reader (inputReg args) fixedUID = Return fixed
    /\ ~ yields_no_transforms reader (inputReg args) fixedUID
    /\ flattened transform = true
    /\ match movingFoR args with
       | None =>
           transform = map Leaf (GetNestedTransformQueue fixed)
           /\ (transform <> [] <-> GetNestedTransformQueue fixed <> [])
       | Some movingUID =>
           exists moving inv,
             ReadComposite reader (inputReg args) movingUID = Return moving
             /\ ~ yields_no_transforms reader (inputReg args) movingUID
             /\ map leaf_GetInverseTransform (GetNestedTransformQueue fixed)
                = map Some inv
             /\ transform = map Leaf (GetNestedTransformQueue moving ++ rev inv)
             /\ (transform <> []
                 <-> GetNestedTransformQueue moving <> []
                     \/ GetNestedTransformQueue fixed <> [])
       end.
Proof.
  intros Hin.
  destruct (ParseArguments exec argv) as [args | status err] eqn:Hp;
    [| unfold main in Hin; rewrite Hp in Hin; contradiction].
  rewrite (main_Parsed reader writer _ _ _ Hp) in Hin.
  destruct (fixedFoR args) as [fixedUID |] eqn:Hfixed; [| contradiction].
  destruct (movingFoR args) as [movingUID |] eqn:Hmoving.
  - destruct (ComposeFixedToMoving reader (inputReg args) fixedUID movingUID)
      as [final | e] eqn:Hc; [| contradiction].
    assert (Hcall : (fileName, transform) = (outputTransform args, final)).
    { destruct (run_Update (writer (outputTransform args) final));
        simpl in Hin; destruct Hin as [Heq | []]; now symmetry. }
    injection Hcall as -> ->.
    destruct (ComposeFixedToMoving_Return reader _ _ _ _ Hc)
      as (fixed & moving & Hf & Hm & Hinv).
    destruct (ComposeFixedToMoving_invertible reader _ _ _ _ _ Hf Hm Hinv)
      as (inv & Hmap & _ & Hret).
    assert (Hfinal : final = map Leaf (GetNestedTransformQueue moving ++ rev inv))
      by congruence.
    exists args, fixedUID, fixed. rewrite Hmoving.
    split; [reflexivity |]. split; [reflexivity |]. split; [exact Hfixed |].
    split; [exact Hf |].
    split; [now apply (ReadComposite_Return_transforms _ _ fixed) |].
    split; [rewrite Hfinal; apply flattened_map_Leaf |].
    exists moving, inv.
    split; [exact Hm |].
    split; [now apply (ReadComposite_Return_transforms _ _ moving) |].
    split; [exact Hmap |].
    split; [exact Hfinal |].
    rewrite Hfinal.
    assert (Hlen : List.length inv = List.length (GetNestedTransformQueue fixed)).
    { rewrite <- (List.length_map Some inv), <- Hmap. apply List.length_map. }
    destruct (GetNestedTransformQueue moving) as [| m ms];
      destruct (GetNestedTransformQueue fixed) as [| f fs];
      destruct inv as [| i inv]; try discriminate Hlen; simpl; split.
    + intros Hne. now elim Hne.
    + intros [Hne | Hne]; now elim Hne.
    + intros _. right. discriminate.
    + intros _ Hnil. apply map_eq_nil in Hnil. now apply app_eq_nil in Hnil.
    + intros _. left. discriminate.
    + intros _. discriminate.
    + intros _. left. discriminate.
    + intros _. discriminate.
  - destruct (ExtractSingle reader (inputReg args) fixedUID)
      as [final | e] eqn:He; [| contradiction].
    assert (Hcall : (fileName, transform) = (outputTransform args, final)).
    { destruct (run_Update (writer (outputTransform args) final));
        simpl in Hin; destruct Hin as [Heq | []]; now symmetry. }
    injection Hcall as -> ->.
    destruct (ExtractSingle_Return reader _ _ _ He) as (fixed & Hf & Hfinal).
    exists args, fixedUID, fixed. rewrite Hmoving.
    split; [reflexivity |]. split; [reflexivity |]. split; [exact Hfixed |].
    split; [exact Hf |].
    split; [now apply (ReadComposite_Return_transforms _ _ fixed) |].
    split; [rewrite Hfinal; apply flattened_map_Leaf |].
    split; [exact Hfinal |].
    rewrite Hfinal. destruct (GetNestedTransformQueue fixed); simpl; split; congruence.
Qed.

(** A run in which the transform list of the fixed frame, or of the moving
    frame once the fixed composite is read, is null or empty. *)
Lemma main_frame_absent
      (exec : string) (argv : list string) (args : Arguments)
      (frameOfReference : string) :
  ParseArguments exec argv = Parsed args ->
  frame_absent reader args frameOfReference ->
  main reader writer exec argv
  = mkOutcome EXIT_FAILURE (report (FrameNotFound frameOfReference)) [].
Proof.
  intros Hp Habsent.
  apply (main_Throw exec argv args); [exact Hp |].
  destruct Habsent as [[Hfixed Hno] | (fixedUID & fixed & Hfixed & Hmoving & Hf & Hno)].
  - rewrite Hfixed.
    pose proof (ReadComposite_no_transforms reader _ _ Hno) as Hr.
    destruct (movingFoR args) as [moving |].
    + unfold ComposeFixedToMoving. now rewrite Hr.
    + unfold ExtractSingle. now rewrite Hr.
  - rewrite Hfixed, Hmoving.
    pose proof (ReadComposite_no_transforms reader _ _ Hno) as Hr.
    unfold ComposeFixedToMoving. now rewrite Hf, Hr.
Qed.

(** A run that names a frame whose transform list is null or empty never
    gets to the writer. *)
Lemma main_no_transforms
      (exec : string) (argv : list string) (args : Arguments)
      (frameOfReference : string) :
  ParseArguments exec argv = Parsed args ->
  fixedFoR args = Some frameOfReference \/ movingFoR args = Some frameOfReference ->
  yields_no_transforms reader (inputReg args) frameOfReference ->
  writer_calls (main reader writer exec argv) = []
  /\ exit_status (main reader writer exec argv) = EXIT_FAILURE.
Proof.
  intros Hp Hnamed Hno.
  pose proof (ReadComposite_no_transforms reader _ _ Hno) as Hr.
  assert (He : exists e,
             match fixedFoR args, movingFoR args with
             | Some fixed, Some moving =>
                 ComposeFixedToMoving reader (inputReg args) fixed moving
             | Some fixed, None => ExtractSingle reader (inputReg args) fixed
             | None, _ => Throw MissingFixedFoR
             end = Throw e).
  { destruct (fixedFoR args) as [fixedUID |]; [| now exists MissingFixedFoR].
    destruct (movingFoR args) as [movingUID |].
    - unfold ComposeFixedToMoving.
      destruct (ReadComposite reader (inputReg args) fixedUID) as [fixed | e] eqn:Hf;
        [| now exists e].
      destruct Hnamed as [[= ->] | [= ->]]; [congruence |].
      rewrite Hr. simpl. eauto.
    - destruct Hnamed as [[= ->] | Hm]; [| discriminate].
      unfold ExtractSingle. rewrite Hr. simpl. eauto. }
  destruct He as (e & He).
  rewrite (main_Throw exec argv args e Hp He). split; reflexivity.
Qed.

(** C8, as the code has it: every composite handed to the writer is
    flattened and was built from composites that [ReadComposite] returned,
    so the transform list of every frame of reference that was read is not
    empty.  A run that names a frame whose transform list is null or empty
    never calls the writer and exits with a failure; it reports the frame as
    not found when it gets to reading it (the frame is the fixed one, or the
    moving one and the fixed composite is read).  The queue of a composite
    that was read is not tested: the composite handed to the writer is
    non-empty exactly when a composite that was read holds a transform. *)
Theorem writer_input_provenance (exec : string) (argv : list string) :
  (forall fileName transform,
      In (fileName, transform) (writer_calls (main reader writer exec argv)) ->
      exists args fixedUID fixed,
        ParseArguments exec argv = Parsed args
        /\ fileName = outputTransform args
        /\ fixedFoR args = Some fixedUID
        /\ ReadComposite reader (inputReg args) fixedUID = Return fixed
        /\ ~ yields_no_transforms reader (inputReg args) fixedUID
        /\ flattened transform = true
        /\ match movingFoR args with
           | None =>
               transform = map Leaf (GetNestedTransformQueue fixed)
               /\ (transform <> [] <-> GetNestedTransformQueue fixed <> [])
           | Some movingUID =>
               exists moving inv,
                 ReadComposite reader (inputReg args) movingUID = Return moving
                 /\ ~ yields_no_transforms reader (inputReg args) movingUID
                 /\ map leaf_GetInverseTransform (GetNestedTransformQueue fixed)
                    = map Some inv
                 /\ transform = map Leaf (GetNestedTransformQueue moving ++ rev inv)
                 /\ (transform <> []
                     <-> GetNestedTransformQueue moving <> []
                         \/ GetNestedTransformQueue fixed <> [])
           end)
  /\ (forall args frameOfReference,
         ParseArguments exec argv = Parsed args ->
         fixedFoR args = Some frameOfReference
         \/ movingFoR args = Some frameOfReference ->
         yields_no_transforms reader (inputReg args) frameOfReference ->
         writer_calls (main reader writer exec argv) = []
         /\ exit_status (main reader writer exec argv) = EXIT_FAILURE)
  /\ (forall args frameOfReference,
         ParseArguments exec argv = Parsed args ->
         frame_absent reader args frameOfReference ->
         main reader writer exec argv
         = mkOutcome EXIT_FAILURE (report (FrameNotFound frameOfReference)) []).
Proof.
  split; [| split].
  - intros fileName transform. apply writer_call_origin.
  - intros args frameOfReference. apply main_no_transforms.
  - intros args frameOfReference. apply main_frame_absent.
Qed.

End Driver.

(** ** Rational affine transforms have exact inverses *)

Lemma Qc_eq_bool_false (x y : Qc) : Qc_eq_bool x y = false -> x <> y.
Proof.
  unfold Qc_eq_bool. destruct (Qc_eq_dec x y); congruence.
Qed.

Lemma Affine3_inverse_after (t t' : Affine3) (p : Vector3) :
  Affine3_GetInverseTransform t = Some t' ->
  Affine3_TransformPoint t' (Affine3_TransformPoint t p) = p.
Proof.
  unfold Affine3_GetInverseTransform.
  destruct (Qc_eq_bool _ _) eqn:E; [discriminate |].
  apply Qc_eq_bool_false in E.
  intros [= <-].
  destruct t as [[[[[a b] c] [[d e] f]] [[g h] i]] [[x y] z]].
  destruct p as [[p0 p1] p2].
  cbv [Affine3_TransformPoint inverseMatrix mulMV addV oppV dot matrix offset].
  cbv [matrix determinant] in E |- *.
  f_equal; [f_equal |]; field; exact E.
Qed.

Lemma Affine3_inverse_before (t t' : Affine3) (p : Vector3) :
  Affine3_GetInverseTransform t = Some t' ->
  Affine3_TransformPoint t (Affine3_TransformPoint t' p) = p.
Proof.
  unfold Affine3_GetInverseTransform.
  destruct (Qc_eq_bool _ _) eqn:E; [discriminate |].
  apply Qc_eq_bool_false in E.
  intros [= <-].
  destruct t as [[[[[a b] c] [[d e] f]] [[g h] i]] [[x y] z]].
  destruct p as [[p0 p1] p2].
  cbv [Affine3_TransformPoint inverseMatrix mulMV addV oppV dot matrix offset].
  cbv [matrix determinant] in E |- *.
  f_equal; [f_equal |]; field; exact E.
Qed.

#[export] Instance Affine3_ExactInverse : ExactInverse Vector3 Affine3.
Proof.
  split.
  - exact Affine3_inverse_after.
  - exact Affine3_inverse_before.
Qed.

(** ** The sample file *)

(** Frames [A] and [B] are the translations by (10, 0, 0) and (0, 5, 0):
    the composite for fixed [A] and moving [B] takes the origin to
    (-10, 5, 0). *)
Example translations_A_to_B :
  match ComposeFixedToMoving sample_reader "r.dcm" "A" "B" with
  | Return final =>
      coordinates (CompositeTransformPoint final (vector 0 0 0))
      = ((-10 # 1)%Q, (5 # 1)%Q, (0 # 1)%Q)
  | Throw _ => False
  end.
Proof. vm_compute. reflexivity. Qed.

(** Fixed [AB] doubles after it shifts by (1, 0, 0), moving [B] shifts by
    (0, 5, 0): the composite halves, shifts back and then applies [B], so
    (4, 2, 0) goes to (1, 6, 0); the moving transform first would give
    (1, 7/2, 0). *)
Example scaling_AB_to_B :
  match ComposeFixedToMoving sample_reader "r.dcm" "AB" "B" with
  | Return final =>
      coordinates (CompositeTransformPoint final (vector 4 2 0))
      = ((1 # 1)%Q, (6 # 1)%Q, (0 # 1)%Q)
  | Throw _ => False
  end.
Proof. vm_compute. reflexivity. Qed.

(** A run in single-extraction mode on frame [A]. *)
Example main_single_A :
  main sample_reader sample_writer "reg_to_h5"
       ["--input"; "r.dcm"; "--output"; "t.h5"; "--fixed"; "A"]
  = mkOutcome EXIT_SUCCESS "" [("t.h5", [Leaf (translation 10 0 0)])].
Proof. reflexivity. Qed.

(** A value that looks like a flag is still the value. *)
Example flag_as_value :
  ParseArguments "reg_to_h5"
                 ["-i"; "r.dcm"; "-o"; "t.h5"; "--fixed"; "--moving"]
  = Parsed (mkArguments "r.dcm" "t.h5" (Some "--moving") None).
Proof. reflexivity. Qed.

(** A help token behind an unknown argument, or taken as a value, is not
    reached. *)
Example help_behind_unknown_argument :
  main sample_reader sample_writer "reg_to_h5"
       ["--output"; "t.h5"; "--bogus"; "--help"]
  = mkOutcome EXIT_FAILURE
      ("Unknown argument: --bogus" ++ nl ++ PrintUsage "reg_to_h5") [].
Proof. reflexivity. Qed.

Example help_as_value :
  main sample_reader sample_writer "reg_to_h5" ["--fixed"; "--help"]
  = mkOutcome EXIT_FAILURE (PrintUsage "reg_to_h5") [].
Proof. reflexivity. Qed.

Example help_exits_with_success :
  main sample_reader sample_writer "reg_to_h5" ["--help"]
  = mkOutcome EXIT_SUCCESS (PrintUsage "reg_to_h5") [].
Proof. reflexivity. Qed.

(** A transform list that starts with a matrix, and a file that does not
    load. *)
Example ReadComposite_not_a_composite :
  ReadComposite sample_reader "r.dcm" "MATRIX"
  = Throw (UnexpectedTransformShape "MATRIX").
Proof. reflexivity. Qed.

(** A fixed frame that is no composite is reported before a moving frame
    that the file does not have. *)
Example main_shape_before_missing_moving_frame :
  main sample_reader sample_writer "reg_to_h5"
       ["--input"; "r.dcm"; "--output"; "t.h5";
        "--fixed"; "MATRIX"; "--moving"; "1.2.3.4"]
  = mkOutcome EXIT_FAILURE
      ("Error: Expected CompositeTransform for frame MATRIX" ++ nl) [].
Proof. reflexivity. Qed.

Example main_file_not_loaded :
  main sample_reader sample_writer "reg_to_h5"
       ["--input"; "missing.dcm"; "--output"; "t.h5"; "--fixed"; "A"]
  = mkOutcome EXIT_FAILURE
      ("ITK error: Could not load the file: missing.dcm" ++ nl) [].
Proof. reflexivity. Qed.

(** ** The theorems at the sample file *)

(** C1 at the frames [AB] (fixed) and [B] (moving). *)
Lemma ComposeFixedToMoving_is_moving_after_fixed_inverse_witness :
  exists final fixed moving fixedInverse,
    ComposeFixedToMoving sample_reader "r.dcm" "AB" "B" = Return final
    /\ ReadComposite sample_reader "r.dcm" "AB" = Return fixed
    /\ ReadComposite sample_reader "r.dcm" "B" = Return moving
    /\ GetInverse (FlattenTransformQueue fixed) = Some fixedInverse
    /\ (forall p, CompositeTransformPoint fixedInverse
                    (CompositeTransformPoint fixed p) = p)
    /\ (forall p, CompositeTransformPoint fixed
                    (CompositeTransformPoint fixedInverse p) = p)
    /\ (forall p, CompositeTransformPoint final p
                  = CompositeTransformPoint moving
                      (CompositeTransformPoint fixedInverse p)).
Proof.
  assert (Hc : ComposeFixedToMoving sample_reader "r.dcm" "AB" "B"
               = Return match ComposeFixedToMoving sample_reader "r.dcm" "AB" "B" with
                        | Return final => final
                        | Throw _ => []
                        end)
    by (vm_compute; reflexivity).
  destruct (ComposeFixedToMoving_is_moving_after_fixed_inverse
              sample_reader "r.dcm" "AB" "B" _ Hc)
    as (fixed & moving & fixedInverse & Hrest).
  eexists _, fixed, moving, fixedInverse.
  split; [exact Hc | exact Hrest].
Defined.

(** C2 at the frames [NESTED] (fixed) and [B] (moving). *)
Lemma ComposeFixedToMoving_queue_witness :
  exists final Finv,
    ComposeFixedToMoving sample_reader "r.dcm" "NESTED" "B" = Return final
    /\ map leaf_GetInverseTransform [translation 1 2 3; scaling 2 4 8]
       = map Some Finv
    /\ GetInverse (FlattenTransformQueue
                     [Composite [Leaf (translation 1 2 3)]; Leaf (scaling 2 4 8)])
       = Some (map Leaf (rev Finv))
    /\ final = map Leaf [translation 0 5 0] ++ map Leaf (rev Finv).
Proof.
  assert (Hc : ComposeFixedToMoving sample_reader "r.dcm" "NESTED" "B"
               = Return match ComposeFixedToMoving sample_reader "r.dcm" "NESTED" "B" with
                        | Return final => final
                        | Throw _ => []
                        end)
    by (vm_compute; reflexivity).
  destruct (ComposeFixedToMoving_queue
              sample_reader "r.dcm" "NESTED" "B"
              [Composite [Leaf (translation 1 2 3)]; Leaf (scaling 2 4 8)]
              [Leaf (translation 0 5 0)]
              _
              [translation 1 2 3; scaling 2 4 8]
              [translation 0 5 0]
              eq_refl eq_refl eq_refl eq_refl Hc)
    as (Finv & Hrest).
  eexists _, Finv.
  split; [exact Hc | exact Hrest].
Defined.


(** C3: the composite that [ReadComposite] returns for the frame [NESTED]
    holds a composite; it is not flattened. *)
Lemma ReadComposite_not_flattened :
  ReadComposite sample_reader "r.dcm" "NESTED"
  = Return [Composite [Leaf (translation 1 2 3)]; Leaf (scaling 2 4 8)]
  /\ flattened [Composite [Leaf (translation 1 2 3)]; Leaf (scaling 2 4 8)]
     = false
  /\ ~ (forall composite,
           ReadComposite sample_reader "r.dcm" "NESTED" = Return composite ->
           flattened composite = true).
Proof.
  split; [reflexivity |]. split; [reflexivity |].
  intros Hall.
  specialize (Hall _ eq_refl). discriminate Hall.
Qed.

(** C3 as amended, at the frame [NESTED]. *)
Lemma ReadComposite_as_read_callers_flatten_witness :
  ReadComposite sample_reader "r.dcm" "NESTED"
  = Return [Composite [Leaf (translation 1 2 3)]; Leaf (scaling 2 4 8)]
  /\ flattened [Leaf (translation 1 2 3); Leaf (scaling 2 4 8)] = true
  /\ flattened [Leaf (translation 10 0 0);
                Leaf (mkAffine3 (inverseMatrix (diagonal 2 4 8))
                                (oppV (mulMV (inverseMatrix (diagonal 2 4 8))
                                             (vector 0 0 0))));
                Leaf (mkAffine3 (inverseMatrix (diagonal 1 1 1))
                                (oppV (mulMV (inverseMatrix (diagonal 1 1 1))
                                             (vector 1 2 3))))] = true.
Proof.
  destruct (ReadComposite_as_read_callers_flatten sample_reader "r.dcm" "NESTED")
    as (Hread & Hsingle & Hpair).
  split; [| split].
  - apply (Hread _ []). reflexivity.
  - apply Hsingle. reflexivity.
  - apply (Hpair "A"). reflexivity.
Defined.

(** C7: the frame [EMPTY] is in the file, with a composite that holds no
    transform; [ExtractSingle] returns an empty composite for it. *)
Lemma ExtractSingle_empty_composite :
  sample_reader "r.dcm" "EMPTY" = Updated (Some [Composite []])
  /\ ExtractSingle sample_reader "r.dcm" "EMPTY" = Return []
  /\ ~ (forall final,
           ExtractSingle sample_reader "r.dcm" "EMPTY" = Return final ->
           final <> []).
Proof.
  split; [reflexivity |]. split; [reflexivity |].
  intros Hall. now apply (Hall [] eq_refl).
Qed.

(** C7 as amended, at the frame [NESTED]. *)
Lemma ExtractSingle_flattened_same_action_witness :
  exists final,
    ExtractSingle sample_reader "r.dcm" "NESTED" = Return final
    /\ flattened final = true
    /\ final = map Leaf [translation 1 2 3; scaling 2 4 8]
    /\ (final <> [] <-> [translation 1 2 3; scaling 2 4 8] <> [])
    /\ (forall p, CompositeTransformPoint final p
                  = CompositeTransformPoint
                      [Composite [Leaf (translation 1 2 3)]; Leaf (scaling 2 4 8)] p)
    /\ (forall p, CompositeTransformPoint final p
                  = fold_right leaf_TransformPoint p
                      [translation 1 2 3; scaling 2 4 8]).
Proof.
  exact (ExtractSingle_flattened_same_action
           sample_reader "r.dcm" "NESTED"
           [Composite [Leaf (translation 1 2 3)]; Leaf (scaling 2 4 8)] []
           eq_refl).
Defined.

(** C4: a command line without [--fixed]: the run fails with the line of
    the missing fixed frame, and the usage text is not written. *)
Lemma missing_fixed_prints_no_usage :
  flag_given FFixed ["--input"; "r.dcm"; "--output"; "t.h5"] = false
  /\ main sample_reader sample_writer "reg_to_h5"
          ["--input"; "r.dcm"; "--output"; "t.h5"]
     = mkOutcome EXIT_FAILURE
         ("Error: At least --fixed must be supplied to determine which transform to export"
          ++ nl) []
  /\ mentions (PrintUsage "reg_to_h5")
              (cerr (main sample_reader sample_writer "reg_to_h5"
                          ["--input"; "r.dcm"; "--output"; "t.h5"])) = false.
Proof.
  repeat split.
Qed.

(** C4 as amended: a command line without [--input], one without
    [--input] that gets to [--help], and one without [--fixed]. *)
Lemma missing_flags_outcome_witness :
  (mentions (PrintUsage "reg_to_h5")
            (cerr (main sample_reader sample_writer "reg_to_h5"
                        ["--output"; "t.h5"; "--fixed"; "A"])) = true
   /\ writer_calls (main sample_reader sample_writer "reg_to_h5"
                         ["--output"; "t.h5"; "--fixed"; "A"]) = []
   /\ exit_status (main sample_reader sample_writer "reg_to_h5"
                        ["--output"; "t.h5"; "--fixed"; "A"]) = EXIT_FAILURE)
  /\ exit_status (main sample_reader sample_writer "reg_to_h5"
                       ["--output"; "t.h5"; "--help"; "--bogus"]) = EXIT_SUCCESS
  /\ main sample_reader sample_writer "reg_to_h5"
          ["--input"; "r.dcm"; "--output"; "t.h5"]
     = mkOutcome EXIT_FAILURE (report MissingFixedFoR) [].
Proof.
  split; [| split].
  - destruct (proj1 (missing_flags_outcome sample_reader sample_writer "reg_to_h5"
                       ["--output"; "t.h5"; "--fixed"; "A"])
                    (or_introl eq_refl))
      as (Husage & Hcalls & Hstatus & _).
    split; [exact Husage |]. split; [exact Hcalls |]. exact (Hstatus eq_refl).
  - destruct (proj1 (missing_flags_outcome sample_reader sample_writer "reg_to_h5"
                       ["--output"; "t.h5"; "--help"; "--bogus"])
                    (or_introl eq_refl))
      as (_ & _ & _ & Hhelp & _).
    apply Hhelp.
    exists [("--output", "t.h5")], "--help", ["--bogus"].
    split; [reflexivity |]. split; reflexivity.
  - exact (proj1 (proj2 (missing_flags_outcome sample_reader sample_writer "reg_to_h5"
                           ["--input"; "r.dcm"; "--output"; "t.h5"])
                        eq_refl
                        (mkArguments "r.dcm" "t.h5" None None)
                        eq_refl)).
Defined.

(** C5 at a frame that the sample file does not have, as the fixed frame
    and as the moving frame. *)
Lemma FrameNotFound_reported_witness :
  main sample_reader sample_writer "reg_to_h5"
       ["--input"; "r.dcm"; "--output"; "t.h5"; "--fixed"; "1.2.3.4"]
  = mkOutcome EXIT_FAILURE
      ("Error: No transforms found for frame of reference 1.2.3.4" ++ nl) []
  /\ mentions "1.2.3.4"
       (cerr (main sample_reader sample_writer "reg_to_h5"
                   ["--input"; "r.dcm"; "--output"; "t.h5";
                    "--fixed"; "A"; "--moving"; "1.2.3.4"])) = true.
Proof.
  split.
  - apply (FrameNotFound_reported
             sample_reader sample_writer "reg_to_h5"
             ["--input"; "r.dcm"; "--output"; "t.h5"; "--fixed"; "1.2.3.4"]
             (mkArguments "r.dcm" "t.h5" (Some "1.2.3.4") None)
             "1.2.3.4" eq_refl).
    left. split; [reflexivity |]. right. reflexivity.
  - apply (FrameNotFound_reported
             sample_reader sample_writer "reg_to_h5"
             ["--input"; "r.dcm"; "--output"; "t.h5";
              "--fixed"; "A"; "--moving"; "1.2.3.4"]
             (mkArguments "r.dcm" "t.h5" (Some "A") (Some "1.2.3.4"))
             "1.2.3.4" eq_refl).
    right. exists "A", [Leaf (translation 10 0 0)].
    split; [reflexivity |]. split; [reflexivity |]. split; [reflexivity |].
    right. reflexivity.
Defined.

(** C6: the fixed frame [SINGULAR] with a moving frame that the file does
    not have: the fixed composite is read and holds a singular matrix, and
    the run reports the frame that was not found, not the failed
    inversion. *)
Lemma singular_fixed_frame_reports_missing_moving_frame :
  ReadComposite sample_reader "r.dcm" "SINGULAR" = Return [Leaf (scaling 1 1 0)]
  /\ invertible [Leaf (scaling 1 1 0)] = false
  /\ main sample_reader sample_writer "reg_to_h5"
          ["--input"; "r.dcm"; "--output"; "t.h5";
           "--fixed"; "SINGULAR"; "--moving"; "1.2.3.4"]
     = mkOutcome EXIT_FAILURE
         ("Error: No transforms found for frame of reference 1.2.3.4" ++ nl) []
  /\ cerr (main sample_reader sample_writer "reg_to_h5"
                ["--input"; "r.dcm"; "--output"; "t.h5";
                 "--fixed"; "SINGULAR"; "--moving"; "1.2.3.4"])
     <> report NotInvertible.
Proof.
  split; [reflexivity |].
  split; [vm_compute; reflexivity |].
  split; [vm_compute; reflexivity |].
  vm_compute. discriminate.
Qed.

(** C6 as amended, at the frame [SINGULAR] as the fixed frame. *)
Lemma NotInvertible_aborts_before_write_witness :
  exit_status (main sample_reader sample_writer "reg_to_h5"
                    ["--input"; "r.dcm"; "--output"; "t.h5";
                     "--fixed"; "SINGULAR"; "--moving"; "B"]) = EXIT_FAILURE
  /\ writer_calls (main sample_reader sample_writer "reg_to_h5"
                        ["--input"; "r.dcm"; "--output"; "t.h5";
                         "--fixed"; "SINGULAR"; "--moving"; "B"]) = []
  /\ main sample_reader sample_writer "reg_to_h5"
          ["--input"; "r.dcm"; "--output"; "t.h5";
           "--fixed"; "SINGULAR"; "--moving"; "B"]
     = mkOutcome EXIT_FAILURE ("Error: Fixed transform is not invertible" ++ nl) [].
Proof.
  assert (Hsingular : leaf_GetInverseTransform (scaling 1 1 0) = None)
    by (vm_compute; reflexivity).
  destruct (NotInvertible_aborts_before_write
              sample_reader sample_writer "reg_to_h5"
              ["--input"; "r.dcm"; "--output"; "t.h5";
               "--fixed"; "SINGULAR"; "--moving"; "B"]
              (mkArguments "r.dcm" "t.h5" (Some "SINGULAR") (Some "B"))
              "SINGULAR" "B" [Leaf (scaling 1 1 0)] (scaling 1 1 0)
              eq_refl eq_refl eq_refl eq_refl (or_introl eq_refl) Hsingular)
    as (Hstatus & _ & Hcalls & Hline & _).
  split; [exact Hstatus |]. split; [exact Hcalls |].
  exact (Hline [Leaf (translation 0 5 0)] eq_refl).
Defined.

(** C8: for the frame [EMPTY] the writer is handed an empty composite, and
    the run ends with success. *)
Lemma writer_receives_empty_composite :
  main sample_reader sample_writer "reg_to_h5"
       ["--input"; "r.dcm"; "--output"; "t.h5"; "--fixed"; "EMPTY"]
  = mkOutcome EXIT_SUCCESS "" [("t.h5", [])]
  /\ ReadComposite sample_reader "r.dcm" "EMPTY" = Return []
  /\ ~ (forall fileName transform,
           In (fileName, transform)
              (writer_calls
                 (main sample_reader sample_writer "reg_to_h5"
                       ["--input"; "r.dcm"; "--output"; "t.h5"; "--fixed"; "EMPTY"])) ->
           transform <> []).
Proof.
  split; [reflexivity |]. split; [reflexivity |].
  intros Hall. apply (Hall "t.h5" []); [| reflexivity].
  left. reflexivity.
Qed.

(** C8 as amended, at a run in pair-composition mode, at a run that names
    a moving frame the file does not have behind a fixed frame that is no
    composite, and at a run whose fixed frame the file does not have. *)
Lemma writer_input_provenance_witness :
  (exists args fixedUID fixed,
      ParseArguments "reg_to_h5"
                     ["--input"; "r.dcm"; "--output"; "t.h5";
                      "--fixed"; "A"; "--moving"; "B"] = Parsed args
      /\ "t.h5" = outputTransform args
      /\ fixedFoR args = Some fixedUID
      /\ ReadComposite sample_reader (inputReg args) fixedUID = Return fixed
      /\ ~ yields_no_transforms sample_reader (inputReg args) fixedUID)
  /\ (writer_calls (main sample_reader sample_writer "reg_to_h5"
                          ["--input"; "r.dcm"; "--output"; "t.h5";
                           "--fixed"; "MATRIX"; "--moving"; "1.2.3.4"]) = []
      /\ exit_status (main sample_reader sample_writer "reg_to_h5"
                            ["--input"; "r.dcm"; "--output"; "t.h5";
                             "--fixed"; "MATRIX"; "--moving"; "1.2.3.4"])
         = EXIT_FAILURE)
  /\ main sample_reader sample_writer "reg_to_h5"
          ["--input"; "r.dcm"; "--output"; "t.h5"; "--fixed"; "1.2.3.4"]
     = mkOutcome EXIT_FAILURE (report (FrameNotFound "1.2.3.4")) [].
Proof.
  split; [| split].
  2: { apply (proj1 (proj2 (writer_input_provenance
                              sample_reader sample_writer "reg_to_h5"
                              ["--input"; "r.dcm"; "--output"; "t.h5";
                               "--fixed"; "MATRIX"; "--moving"; "1.2.3.4"]))
                    (mkArguments "r.dcm" "t.h5" (Some "MATRIX") (Some "1.2.3.4"))
                    "1.2.3.4" eq_refl (or_intror eq_refl)).
       right. reflexivity. }
  2: { apply (proj2 (proj2 (writer_input_provenance
                              sample_reader sample_writer "reg_to_h5"
                              ["--input"; "r.dcm"; "--output"; "t.h5";
                               "--fixed"; "1.2.3.4"]))
                    (mkArguments "r.dcm" "t.h5" (Some "1.2.3.4") None)
                    "1.2.3.4" eq_refl).
       left. split; [reflexivity |]. right. reflexivity. }
  assert (Hin : In ("t.h5",
                    match ComposeFixedToMoving sample_reader "r.dcm" "A" "B" with
                    | Return final => final
                    | Throw _ => []
                    end)
                   (writer_calls
                      (main sample_reader sample_writer "reg_to_h5"
                            ["--input"; "r.dcm"; "--output"; "t.h5";
                             "--fixed"; "A"; "--moving"; "B"])))
    by (left; vm_compute; reflexivity).
  destruct (proj1 (writer_input_provenance sample_reader sample_writer _ _)
                  _ _ Hin)
    as (args & fixedUID & fixed & Hp & Hfile & Hfixed & Hread & Hlist & _).
  exists args, fixedUID, fixed. auto.
Defined.

(** C10 at the flag [--fixed]. *)
Lemma ParseArguments_value_flags_witness :
  ParseArguments_loop "reg_to_h5" no_arguments ["--fixed"]
  = Exit EXIT_FAILURE
         ("Unknown argument: --fixed" ++ nl ++ PrintUsage "reg_to_h5")
  /\ ParseArguments_loop "reg_to_h5" no_arguments ["--fixed"; "--moving"; "-i"; "r.dcm"]
     = ParseArguments_loop "reg_to_h5"
         (mkArguments "" "" (Some "--moving") None) ["-i"; "r.dcm"]
  /\ exists args',
      ParseArguments_loop "reg_to_h5" no_arguments
        ["--fixed"; "A"; "-o"; "t.h5"; "--fixed"; "B"] = Parsed args'
      /\ fixedFoR args' = Some "B".
Proof.
  destruct (ParseArguments_value_flags "reg_to_h5" no_arguments "--fixed" FFixed eq_refl)
    as (Hlast & Hvalue & Hpairs).
  split; [exact Hlast |].
  split; [exact (Hvalue "--moving" ["-i"; "r.dcm"]) |].
  exact (Hpairs [("--fixed", "A"); ("-o", "t.h5"); ("--fixed", "B")] eq_refl).
Defined.


(** * Further properties of the converter *)

(** ** More on the command line *)

(** The two ways the loop ends the process. *)
Lemma ParseArguments_loop_Exit_cases (exec : string) (argv : list string) :
  forall (args : Arguments) (status : Z) (err : string),
    ParseArguments_loop exec args argv = Exit status err ->
    (status = EXIT_SUCCESS /\ err = PrintUsage exec /\ help_requested argv = true)
    \/ (status = EXIT_FAILURE
        /\ exists key, In key argv
                       /\ err = ("Unknown argument: " ++ key ++ nl ++ PrintUsage exec)%string).
Proof.
  assert (Helse : forall key status err,
             ParseArguments_else exec key = Exit status err ->
             (status = EXIT_SUCCESS /\ err = PrintUsage exec
              /\ (key =? "--help") || (key =? "-h") = true)
             \/ (status = EXIT_FAILURE
                 /\ err = ("Unknown argument: " ++ key ++ nl ++ PrintUsage exec)%string)).
  { intros key status err. unfold ParseArguments_else.
    destruct ((key =? "--help") || (key =? "-h")); intros [= <- <-]; auto. }
  induction argv as [| key | key value rest IH] using list_pair_ind;
    intros args status err Hl.
  - discriminate.
  - change (ParseArguments_loop exec args [key]) with (ParseArguments_else exec key) in Hl.
    destruct (Helse _ _ _ Hl) as [(Hs & He & Hh) | (Hs & He)].
    + left. repeat split; try assumption. unfold help_requested. simpl. now rewrite Hh.
    + right. split; [exact Hs |]. exists key. split; [now left | exact He].
  - destruct (field_of_flag key) as [f |] eqn:Hf.
    + rewrite (ParseArguments_loop_flag _ _ _ _ _ _ Hf) in Hl.
      destruct (IH _ _ _ Hl) as [(Hs & He & Hh) | (Hs & k & Hk & He)].
      * left. repeat split; try assumption.
        unfold help_requested in *. simpl. rewrite Hh. now rewrite !orb_true_r.
      * right. split; [exact Hs |]. exists k. split; [now right; right | exact He].
    + rewrite (ParseArguments_loop_other _ _ _ _ Hf) in Hl.
      destruct (Helse _ _ _ Hl) as [(Hs & He & Hh) | (Hs & He)].
      * left. repeat split; try assumption. unfold help_requested. simpl. now rewrite Hh.
      * right. split; [exact Hs |]. exists key. split; [now left | exact He].
Qed.

Lemma PrintUsage_not_empty (exec : string) : PrintUsage exec <> "".
Proof.
  discriminate.
Qed.

(** X1: arguments that [ParseArguments] returns have an input path and an
    output path that are not empty, and so has every call of the writer a
    file name that is not empty. *)
Theorem ParseArguments_paths_not_empty
        {Point T : Type} `{TransformBase Point T}
        (reader : string -> string -> Update (option (list (Transform T))))
        (writer : string -> CompositeType T -> Update unit)
        (exec : string) (argv : list string) :
  (forall args,
      ParseArguments exec argv = Parsed args ->
      inputReg args <> "" /\ outputTransform args <> "")
  /\ (forall fileName transform,
         In (fileName, transform) (writer_calls (main reader writer exec argv)) ->
         fileName <> "").
Proof.
  assert (Hparsed : forall args,
             ParseArguments exec argv = Parsed args ->
             inputReg args <> "" /\ outputTransform args <> "").
  { intros args. unfold ParseArguments.
    destruct (ParseArguments_loop exec no_arguments argv) as [args' | ? ?];
      [| discriminate].
    destruct ((inputReg args' =? "") || (outputTransform args' =? "")) eqn:He;
      [discriminate |].
    intros [= <-]. apply orb_false_iff in He. destruct He as [Hi Ho].
    split; now apply String.eqb_neq. }
  split; [exact Hparsed |].
  intros fileName transform Hin.
  destruct (ParseArguments exec argv) as [args | status err] eqn:Hp;
    [| unfold main in Hin; rewrite Hp in Hin; contradiction].
  destruct (Hparsed args eq_refl) as [_ Hout].
  rewrite (main_Parsed reader writer _ _ _ Hp) in Hin.
  destruct (match fixedFoR args with
            | Some fixed =>
                match movingFoR args with
                | Some moving => ComposeFixedToMoving reader (inputReg args) fixed moving
                | None => ExtractSingle reader (inputReg args) fixed
                end
            | None => Throw MissingFixedFoR
            end) as [final | e]; [| contradiction].
  destruct (run_Update (writer (outputTransform args) final));
    simpl in Hin; destruct Hin as [[= <- _] | []]; exact Hout.
Qed.

(** X2: behind a prefix of flag and value pairs, a token that is no
    value-taking flag, or a token that is the last one, decides the
    outcome: help ends the process with success and the usage text, any
    other token with a failure and the unknown-argument line; what follows
    the token, and which fields are set, makes no difference. *)
Theorem ParseArguments_stops_at_first_other_token
        (exec : string) (pairs : list (string * string))
        (key : string) (rest : list string) :
  forallb (fun kv => is_value_flag (fst kv)) pairs = true ->
  field_of_flag key = None \/ rest = [] ->
  ParseArguments exec (tokens pairs ++ key :: rest)
  = if (key =? "--help") || (key =? "-h")
    then Exit EXIT_SUCCESS (PrintUsage exec)
    else Exit EXIT_FAILURE ("Unknown argument: " ++ key ++ nl ++ PrintUsage exec).
Proof.
  intros Hall Hkey. unfold ParseArguments.
  destruct (ParseArguments_loop_tokens_app exec pairs (key :: rest) no_arguments Hall)
    as (args' & ->).
  assert (Hl : ParseArguments_loop exec args' (key :: rest)
               = ParseArguments_else exec key).
  { destruct Hkey as [Hf | ->].
    - now apply ParseArguments_loop_other.
    - reflexivity. }
  rewrite Hl. unfold ParseArguments_else.
  now destruct ((key =? "--help") || (key =? "-h")).
Qed.

(** X3: on a command line of flag and value pairs the outcome of
    [ParseArguments] is a function of the last value given for each field:
    it returns the record of these values when an input and an output were
    given and are not empty, and ends the process with the usage text and a
    failure otherwise; so two such command lines with the same last values
    (flags in another order, an alias in the place of a flag, values that
    are overwritten later) have the same outcome. *)
Theorem ParseArguments_pairs
        (exec : string) (pairs : list (string * string)) :
  forallb (fun kv => is_value_flag (fst kv)) pairs = true ->
  ParseArguments exec (tokens pairs)
  = match last_value FInput pairs, last_value FOutput pairs with
    | Some input, Some output =>
        if (input =? "") || (output =? "")
        then Exit EXIT_FAILURE (PrintUsage exec)
        else Parsed (mkArguments input output
                                 (last_value FFixed pairs)
                                 (last_value FMoving pairs))
    | _, _ => Exit EXIT_FAILURE (PrintUsage exec)
    end
  /\ forall pairs',
      forallb (fun kv => is_value_flag (fst kv)) pairs' = true ->
      (forall f, last_value f pairs' = last_value f pairs) ->
      ParseArguments exec (tokens pairs') = ParseArguments exec (tokens pairs).
Proof.
  assert (Hform : forall ps,
             forallb (fun kv => is_value_flag (fst kv)) ps = true ->
             ParseArguments exec (tokens ps)
             = match last_value FInput ps, last_value FOutput ps with
               | Some input, Some output =>
                   if (input =? "") || (output =? "")
                   then Exit EXIT_FAILURE (PrintUsage exec)
                   else Parsed (mkArguments input output
                                            (last_value FFixed ps)
                                            (last_value FMoving ps))
               | _, _ => Exit EXIT_FAILURE (PrintUsage exec)
               end).
  { intros ps Hall. unfold ParseArguments.
    destruct (ParseArguments_loop_pairs exec ps no_arguments Hall) as (args' & -> & Hv).
    pose proof (Hv FInput) as Hi. pose proof (Hv FOutput) as Ho.
    pose proof (Hv FFixed) as Hf. pose proof (Hv FMoving) as Hm.
    destruct args' as [i o f m]. simpl in *.
    destruct (last_value FInput ps) as [input |];
      injection Hi as ->; [| reflexivity].
    destruct (last_value FOutput ps) as [output |];
      injection Ho as ->; [| now rewrite orb_true_r].
    destruct ((input =? "") || (output =? "")); [reflexivity |].
    f_equal. f_equal.
    - rewrite Hf. now destruct (last_value FFixed ps).
    - rewrite Hm. now destruct (last_value FMoving ps). }
  intros Hall. split; [now apply Hform |].
  intros pairs' Hall' Hsame.
  rewrite (Hform pairs' Hall'), (Hform pairs Hall).
  now rewrite !Hsame.
Qed.

(** X4: whenever [ParseArguments] ends the process, the usage text is the
    end of what it wrote; the exit status is a success only with the usage
    text alone and [--help] or [-h] on the command line, and is a failure
    otherwise, after the usage text alone or after the line of an unknown
    argument that is a token of the command line. *)
Theorem ParseArguments_Exit_cases
        (exec : string) (argv : list string) (status : Z) (err : string) :
  ParseArguments exec argv = Exit status err ->
  (status = EXIT_SUCCESS /\ err = PrintUsage exec /\ help_requested argv = true)
  \/ (status = EXIT_FAILURE /\ err = PrintUsage exec)
  \/ (status = EXIT_FAILURE
      /\ exists key, In key argv
                     /\ err = ("Unknown argument: " ++ key ++ nl ++ PrintUsage exec)%string).
Proof.
  unfold ParseArguments.
  destruct (ParseArguments_loop exec no_arguments argv) as [args | st e] eqn:Hl.
  - destruct ((inputReg args =? "") || (outputTransform args =? ""));
      [| discriminate].
    intros [= <- <-]. right. left. split; reflexivity.
  - intros [= <- <-].
    destruct (ParseArguments_loop_Exit_cases exec argv _ _ _ Hl) as [Hs | Hf].
    + left. exact Hs.
    + right. right. exact Hf.
Qed.

(** ** More on the reader, the composition engine and the driver *)

Section ConverterCases.

Context {Point T : Type} `{TransformBase Point T}.

Variable reader : string -> string -> Update (option (list (Transform T))).
Variable writer : string -> CompositeType T -> Update unit.

(** X5: the outcome of [ReadComposite] tells what the reader gave, and only
    the first transform of the list counts: it returns the queue of a
    composite at the head of the list; it throws the frame-not-found error
    exactly for a null or empty list, the unexpected-shape error exactly for
    a list that starts with a transform that is no composite, and the
    reader's own exception exactly when the reader failed. *)
Theorem ReadComposite_cases (regPath frameOfReference : string) :
  (forall composite,
      ReadComposite reader regPath frameOfReference = Return composite
      <-> exists more,
          reader regPath frameOfReference = Updated (Some (Composite composite :: more)))
  /\ (ReadComposite reader regPath frameOfReference
      = Throw (FrameNotFound frameOfReference)
      <-> yields_no_transforms reader regPath frameOfReference)
  /\ (ReadComposite reader regPath frameOfReference
      = Throw (UnexpectedTransformShape frameOfReference)
      <-> exists x more,
          reader regPath frameOfReference = Updated (Some (Leaf x :: more)))
  /\ (forall description,
         ReadComposite reader regPath frameOfReference
         = Throw (ExceptionObject description)
         <-> reader regPath frameOfReference = Failed description).
Proof.
  split; [intros composite; apply ReadComposite_Return |].
  unfold ReadComposite, yields_no_transforms, FrameNotFound, UnexpectedTransformShape.
  destruct (reader regPath frameOfReference)
    as [[[| [x | q] more] |] | description]; simpl.
  - split; [split; auto |]. split; [split |].
    + discriminate.
    + intros (x & more & Hx). discriminate.
    + intros d. split; discriminate.
  - split; [split |].
    + discriminate.
    + intros [Hx | Hx]; discriminate.
    + split; [split |].
      * intros _. now exists x, more.
      * reflexivity.
      * intros d. split; discriminate.
  - split; [split |].
    + discriminate.
    + intros [Hx | Hx]; discriminate.
    + split; [split |].
      * discriminate.
      * intros (x & more' & Hx). discriminate.
      * intros d. split; discriminate.
  - split; [split; auto |]. split; [split |].
    + discriminate.
    + intros (x & more & Hx). discriminate.
    + intros d. split; discriminate.
  - split; [split |].
    + discriminate.
    + intros [Hx | Hx]; discriminate.
    + split; [split |].
      * discriminate.
      * intros (x & more & Hx). discriminate.
      * intros d. split; intros [= ->]; reflexivity.
Qed.

(** X6: [ComposeFixedToMoving] throws [e] in exactly three ways, tried in
    this order: reading the fixed composite throws [e]; the fixed composite
    is read and reading the moving composite throws [e]; both are read, the
    fixed composite is not invertible and [e] is the not-invertible error.
    So a frame that cannot be read is reported before a singular fixed
    composite, and the fixed frame before the moving frame. *)
Theorem ComposeFixedToMoving_Throw_cases
        (regPath fixedFoR movingFoR : string) (e : Exception) :
  ComposeFixedToMoving reader regPath fixedFoR movingFoR = Throw e
  <-> ReadComposite reader regPath fixedFoR = Throw e
      \/ (exists fixed,
             ReadComposite reader regPath fixedFoR = Return fixed
             /\ ReadComposite reader regPath movingFoR = Throw e)
      \/ (exists fixed moving,
             ReadComposite reader regPath fixedFoR = Return fixed
             /\ ReadComposite reader regPath movingFoR = Return moving
             /\ invertible fixed = false
             /\ e = NotInvertible).
Proof.
  destruct (ReadComposite reader regPath fixedFoR) as [fixed | e1] eqn:Hf.
  - destruct (ReadComposite reader regPath movingFoR) as [moving | e2] eqn:Hm.
    + destruct (invertible fixed) eqn:Hinv.
      * destruct (ComposeFixedToMoving_invertible reader _ _ _ _ _ Hf Hm Hinv)
          as (inv & _ & _ & ->).
        split; [discriminate |].
        intros [Hx | [(F & _ & Hx) | (F & M & HF & _ & HFinv & _)]];
          try discriminate.
        injection HF as <-. congruence.
      * rewrite (ComposeFixedToMoving_not_invertible reader _ _ _ _ _ Hf Hm Hinv).
        split.
        -- intros [= <-]. right. right. now exists fixed, moving.
        -- intros [Hx | [(F & _ & Hx) | (F & M & _ & _ & _ & ->)]];
             try discriminate. reflexivity.
    + assert (Hc : ComposeFixedToMoving reader regPath fixedFoR movingFoR = Throw e2)
        by (unfold ComposeFixedToMoving; now rewrite Hf, Hm).
      rewrite Hc. split.
      * intros [= <-]. right. left. now exists fixed.
      * intros [Hx | [(F & _ & Hx) | (F & M & _ & Hx & _)]]; try discriminate.
        exact Hx.
  - assert (Hc : ComposeFixedToMoving reader regPath fixedFoR movingFoR = Throw e1)
      by (unfold ComposeFixedToMoving; now rewrite Hf).
    rewrite Hc. split.
    + intros [= <-]. now left.
    + intros [Hx | [(F & Hx & _) | (F & M & Hx & _)]]; try discriminate.
      exact Hx.
Qed.

Lemma report_not_empty (e : Exception) : report e <> "".
Proof.
  destruct e; discriminate.
Qed.

(** X7: a run ends with one of the two exit statuses and calls the writer
    at most once.  A failure always leaves text on the diagnostic stream.
    A success is either the help exit (the usage text, no call of the
    writer, [--help] or [-h] on the command line) or a run that called the
    writer once, with the writer completing and nothing on the diagnostic
    stream. *)
Theorem main_exit_status (exec : string) (argv : list string) :
  (exit_status (main reader writer exec argv) = EXIT_SUCCESS
   \/ exit_status (main reader writer exec argv) = EXIT_FAILURE)
  /\ (List.length (writer_calls (main reader writer exec argv)) <= 1)%nat
  /\ (exit_status (main reader writer exec argv) = EXIT_FAILURE ->
      cerr (main reader writer exec argv) <> "")
  /\ (exit_status (main reader writer exec argv) = EXIT_SUCCESS ->
      (cerr (main reader writer exec argv) = PrintUsage exec
       /\ writer_calls (main reader writer exec argv) = []
       /\ help_requested argv = true)
      \/ (exists fileName transform,
             writer_calls (main reader writer exec argv) = [(fileName, transform)]
             /\ writer fileName transform = Updated tt
             /\ cerr (main reader writer exec argv) = "")).
Proof.
  destruct (ParseArguments exec argv) as [args | status err] eqn:Hp.
  - rewrite (main_Parsed reader writer _ _ _ Hp).
    destruct (match fixedFoR args with
              | Some fixed =>
                  match movingFoR args with
                  | Some moving => ComposeFixedToMoving reader (inputReg args) fixed moving
                  | None => ExtractSingle reader (inputReg args) fixed
                  end
              | None => Throw MissingFixedFoR
              end) as [final | e].
    + destruct (writer (outputTransform args) final) as [[] | description] eqn:Hw;
        simpl.
      * split; [now left |]. split; [lia |]. split; [discriminate |].
        intros _. right. now exists (outputTransform args), final.
      * split; [now right |]. split; [lia |]. split; [discriminate |].
        discriminate.
    + simpl. split; [now right |]. split; [lia |].
      split; [intros _; apply report_not_empty | discriminate].
  - assert (Hmain : main reader writer exec argv = mkOutcome status err [])
      by (unfold main; now rewrite Hp).
    rewrite Hmain. simpl.
    destruct (ParseArguments_Exit_cases exec argv status err Hp)
      as [(-> & -> & Hh) | [(-> & ->) | (-> & key & _ & ->)]].
    + split; [now left |]. split; [lia |]. split; [discriminate |].
      intros _. now left.
    + split; [now right |]. split; [lia |].
      split; [intros _; apply PrintUsage_not_empty | discriminate].
    + split; [now right |]. split; [lia |].
      split; [discriminate | discriminate].
Qed.

(** X8: the exceptions of the two ITK collaborators are reported with the
    ITK prefix and a failure status: a reader that fails on the fixed frame
    ends the run before the writer is called; a writer that fails ends the
    run after its one call. *)
Theorem ITK_exceptions_reported
        (exec : string) (argv : list string) (args : Arguments)
        (fixedUID description : string) :
  ParseArguments exec argv = Parsed args ->
  fixedFoR args = Some fixedUID ->
  (reader (inputReg args) fixedUID = Failed description ->
   main reader writer exec argv
   = mkOutcome EXIT_FAILURE ("ITK error: " ++ description ++ nl) [])
  /\ (forall transform,
         match movingFoR args with
         | Some movingUID =>
             ComposeFixedToMoving reader (inputReg args) fixedUID movingUID
         | None => ExtractSingle reader (inputReg args) fixedUID
         end = Return transform ->
         writer (outputTransform args) transform = Failed description ->
         main reader writer exec argv
         = mkOutcome EXIT_FAILURE ("ITK error: " ++ description ++ nl)
                     [(outputTransform args, transform)]).
Proof.
  intros Hp Hfixed. split.
  - intros Hr.
    assert (Hread : ReadComposite reader (inputReg args) fixedUID
                    = Throw (ExceptionObject description))
      by (unfold ReadComposite; now rewrite Hr).
    apply (main_Throw reader writer exec argv args (ExceptionObject description));
      [exact Hp |].
    rewrite Hfixed. destruct (movingFoR args) as [movingUID |].
    + unfold ComposeFixedToMoving. now rewrite Hread.
    + unfold ExtractSingle. now rewrite Hread.
  - intros transform Ht Hw.
    rewrite (main_Parsed reader writer _ _ _ Hp), Hfixed.
    destruct (movingFoR args) as [movingUID |]; rewrite Ht, Hw; reflexivity.
Qed.

(** X13: the run succeeds when the fixed composite is read, the writer
    completes and, in pair-composition mode, the moving composite is read
    and the fixed composite is invertible: the exit status is a success,
    nothing is on the diagnostic stream, and the writer is called once, at
    the output path, with the flattened fixed composite in single-extraction
    mode and with the flattened moving composite followed by the reversed
    inverses of the fixed composite in pair-composition mode. *)
Theorem main_succeeds
        (exec : string) (argv : list string) (args : Arguments)
        (fixedUID : string) (fixed : CompositeType T) :
  ParseArguments exec argv = Parsed args ->
  fixedFoR args = Some fixedUID ->
  ReadComposite reader (inputReg args) fixedUID = Return fixed ->
  (forall transform, writer (outputTransform args) transform = Updated tt) ->
  match movingFoR args with
  | None =>
      main reader writer exec argv
      = mkOutcome EXIT_SUCCESS ""
          [(outputTransform args, map Leaf (GetNestedTransformQueue fixed))]
  | Some movingUID =>
      forall moving,
        ReadComposite reader (inputReg args) movingUID = Return moving ->
        invertible fixed = true ->
        exists inv,
          map leaf_GetInverseTransform (GetNestedTransformQueue fixed) = map Some inv
          /\ main reader writer exec argv
             = mkOutcome EXIT_SUCCESS ""
                 [(outputTransform args,
                   map Leaf (GetNestedTransformQueue moving ++ rev inv))]
  end.
Proof.
  intros Hp Hfixed Hf Hw.
  rewrite (main_Parsed reader writer _ _ _ Hp), Hfixed.
  destruct (movingFoR args) as [movingUID |].
  - intros moving Hm Hinv.
    destruct (ComposeFixedToMoving_invertible reader _ _ _ _ _ Hf Hm Hinv)
      as (inv & Hmap & _ & Hret).
    exists inv. split; [exact Hmap |].
    now rewrite Hret, Hw.
  - now rewrite (ExtractSingle_read reader _ _ _ Hf), Hw.
Qed.

End ConverterCases.

(** ** Composites of several calls *)

Section FrameAlgebra.

Context {Point T : Type} `{ExactInverse Point T}.

Variable reader : string -> string -> Update (option (list (Transform T))).

Lemma map_Some_injective (A : Type) (l1 l2 : list A) :
  map Some l1 = map Some l2 -> l1 = l2.
Proof.
  revert l2.
  induction l1 as [| a l1 IH]; intros [| b l2]; simpl; try discriminate; auto.
  intros [= -> Hrest]. f_equal. now apply IH.
Qed.

(** The action of the composite that [ComposeFixedToMoving] returns, in
    terms of the nested transforms of the two composites it read. *)
Lemma ComposeFixedToMoving_action
      (regPath fixedFoR movingFoR : string) (final : CompositeType T) :
  ComposeFixedToMoving reader regPath fixedFoR movingFoR = Return final ->
  exists fixed moving inv,
    ReadComposite reader regPath fixedFoR = Return fixed
    /\ ReadComposite reader regPath movingFoR = Return moving
    /\ map leaf_GetInverseTransform (GetNestedTransformQueue fixed) = map Some inv
    /\ forall p,
        CompositeTransformPoint final p
        = fold_right leaf_TransformPoint
            (fold_right leaf_TransformPoint p (rev inv))
            (GetNestedTransformQueue moving).
Proof.
  intros Hc.
  destruct (ComposeFixedToMoving_Return reader _ _ _ _ Hc)
    as (fixed & moving & Hf & Hm & Hinv).
  destruct (ComposeFixedToMoving_invertible reader _ _ _ _ _ Hf Hm Hinv)
    as (inv & Hmap & _ & Hret).
  exists fixed, moving, inv. repeat split; try assumption.
  intros p.
  assert (Hfinal : final = map Leaf (GetNestedTransformQueue moving ++ rev inv))
    by congruence.
  rewrite Hfinal, CompositeTransformPoint_map_Leaf. apply fold_right_app.
Qed.

Lemma ExtractSingle_action
      (regPath frameOfReference : string) (final : CompositeType T) :
  ExtractSingle reader regPath frameOfReference = Return final ->
  exists fixed,
    ReadComposite reader regPath frameOfReference = Return fixed
    /\ forall p,
        CompositeTransformPoint final p
        = fold_right leaf_TransformPoint p (GetNestedTransformQueue fixed).
Proof.
  intros He.
  destruct (ExtractSingle_Return reader _ _ _ He) as (fixed & Hf & ->).
  exists fixed. split; [exact Hf |].
  intros p. apply CompositeTransformPoint_map_Leaf.
Qed.

(** X9: with the same frame of reference as fixed and as moving frame, the
    composite that [ComposeFixedToMoving] returns leaves every point where
    it is, and its queue is twice as long as the flattened composite of the
    frame. *)
Theorem ComposeFixedToMoving_same_frame
        (regPath frameOfReference : string) (final : CompositeType T) :
  ComposeFixedToMoving reader regPath frameOfReference frameOfReference
  = Return final ->
  (forall p, CompositeTransformPoint final p = p)
  /\ exists composite,
      ReadComposite reader regPath frameOfReference = Return composite
      /\ List.length final
         = (2 * List.length (FlattenTransformQueue composite))%nat.
Proof.
  intros Hc.
  destruct (ComposeFixedToMoving_Return reader _ _ _ _ Hc)
    as (fixed & moving & Hf & Hm & Hinv).
  assert (moving = fixed) by congruence. subst moving.
  destruct (ComposeFixedToMoving_invertible reader _ _ _ _ _ Hf Hm Hinv)
    as (inv & Hmap & _ & Hret).
  assert (Hfinal : final = map Leaf (GetNestedTransformQueue fixed ++ rev inv))
    by congruence.
  split.
  - intros p.
    rewrite Hfinal, CompositeTransformPoint_map_Leaf, fold_right_app.
    now apply inverse_queue_before.
  - exists fixed. split; [exact Hf |].
    rewrite Hfinal, FlattenTransformQueue_nested.
    rewrite !List.length_map, List.length_app, List.length_rev.
    assert (Hlen : List.length inv = List.length (GetNestedTransformQueue fixed)).
    { rewrite <- (List.length_map Some inv), <- Hmap. apply List.length_map. }
    lia.
Qed.

(** X10: the composite for fixed frame F and moving frame M and the
    composite for fixed frame M and moving frame F undo each other. *)
Theorem ComposeFixedToMoving_swap_inverse
        (regPath frameF frameM : string) (FtoM MtoF : CompositeType T) :
  ComposeFixedToMoving reader regPath frameF frameM = Return FtoM ->
  ComposeFixedToMoving reader regPath frameM frameF = Return MtoF ->
  forall p, CompositeTransformPoint MtoF (CompositeTransformPoint FtoM p) = p.
Proof.
  intros Hfm Hmf p.
  destruct (ComposeFixedToMoving_action _ _ _ _ Hfm)
    as (F & M & invF & HF & HM & HinvF & Hact1).
  destruct (ComposeFixedToMoving_action _ _ _ _ Hmf)
    as (M' & F' & invM & HM' & HF' & HinvM & Hact2).
  assert (M' = M) by congruence. assert (F' = F) by congruence. subst M' F'.
  rewrite Hact2, Hact1.
  rewrite (inverse_queue_after _ _ _ HinvM).
  now apply inverse_queue_before.
Qed.

(** X11: composites chain: the composite from frame A to frame B followed
    by the composite from frame B to frame C acts as the composite from
    frame A to frame C. *)
Theorem ComposeFixedToMoving_chain
        (regPath frameA frameB frameC : string)
        (AtoB BtoC AtoC : CompositeType T) :
  ComposeFixedToMoving reader regPath frameA frameB = Return AtoB ->
  ComposeFixedToMoving reader regPath frameB frameC = Return BtoC ->
  ComposeFixedToMoving reader regPath frameA frameC = Return AtoC ->
  forall p,
    CompositeTransformPoint BtoC (CompositeTransformPoint AtoB p)
    = CompositeTransformPoint AtoC p.
Proof.
  intros Hab Hbc Hac p.
  destruct (ComposeFixedToMoving_action _ _ _ _ Hab)
    as (A & B & invA & HA & HB & HinvA & Hact1).
  destruct (ComposeFixedToMoving_action _ _ _ _ Hbc)
    as (B' & C & invB & HB' & HC & HinvB & Hact2).
  destruct (ComposeFixedToMoving_action _ _ _ _ Hac)
    as (A' & C' & invA' & HA' & HC' & HinvA' & Hact3).
  assert (B' = B) by congruence. assert (A' = A) by congruence.
  assert (C' = C) by congruence. subst B' A' C'.
  assert (invA' = invA) by (apply map_Some_injective; congruence). subst invA'.
  rewrite Hact2, Hact1, Hact3.
  now rewrite (inverse_queue_after _ _ _ HinvB).
Qed.

(** X12: the composite from the fixed frame to the moving frame takes the
    image of a point under the fixed frame's own composite to the image of
    the point under the moving frame's own composite. *)
Theorem ComposeFixedToMoving_after_ExtractSingle
        (regPath fixedFoR movingFoR : string)
        (final fixedSingle movingSingle : CompositeType T) :
  ComposeFixedToMoving reader regPath fixedFoR movingFoR = Return final ->
  ExtractSingle reader regPath fixedFoR = Return fixedSingle ->
  ExtractSingle reader regPath movingFoR = Return movingSingle ->
  forall p,
    CompositeTransformPoint final (CompositeTransformPoint fixedSingle p)
    = CompositeTransformPoint movingSingle p.
Proof.
  intros Hc Hf Hm p.
  destruct (ComposeFixedToMoving_action _ _ _ _ Hc)
    as (F & M & inv & HF & HM & Hinv & Hact).
  destruct (ExtractSingle_action _ _ _ Hf) as (F' & HF' & HactF).
  destruct (ExtractSingle_action _ _ _ Hm) as (M' & HM' & HactM).
  assert (F' = F) by congruence. assert (M' = M) by congruence. subst F' M'.
  rewrite Hact, HactF, HactM.
  now rewrite (inverse_queue_after _ _ _ Hinv).
Qed.

End FrameAlgebra.

(** ** The further properties at the sample file *)

(** X1 at a complete command line. *)
Lemma ParseArguments_paths_not_empty_witness :
  inputReg (mkArguments "r.dcm" "t.h5" (Some "A") None) <> ""
  /\ outputTransform (mkArguments "r.dcm" "t.h5" (Some "A") None) <> ""
  /\ "t.h5" <> "".
Proof.
  destruct (ParseArguments_paths_not_empty
              sample_reader sample_writer "reg_to_h5"
              ["--input"; "r.dcm"; "--output"; "t.h5"; "--fixed"; "A"])
    as [Hparsed Hcalls].
  destruct (Hparsed (mkArguments "r.dcm" "t.h5" (Some "A") None) eq_refl)
    as [Hi Ho].
  split; [exact Hi |]. split; [exact Ho |].
  apply (Hcalls "t.h5" [Leaf (translation 10 0 0)]). left. reflexivity.
Defined.

(** X2: a misspelt flag behind two pairs, a help flag in front of it, and a
    flag without value at the end. *)
Lemma ParseArguments_stops_at_first_other_token_witness :
  ParseArguments "reg_to_h5"
                 ["-i"; "r.dcm"; "-o"; "t.h5"; "--fixd"; "A"; "--help"]
  = Exit EXIT_FAILURE ("Unknown argument: --fixd" ++ nl ++ PrintUsage "reg_to_h5")
  /\ ParseArguments "reg_to_h5" ["-i"; "r.dcm"; "--help"; "--fixd"; "A"]
     = Exit EXIT_SUCCESS (PrintUsage "reg_to_h5")
  /\ ParseArguments "reg_to_h5" ["-i"; "r.dcm"; "-o"; "t.h5"; "--moving"]
     = Exit EXIT_FAILURE ("Unknown argument: --moving" ++ nl ++ PrintUsage "reg_to_h5").
Proof.
  split; [| split].
  - exact (ParseArguments_stops_at_first_other_token
             "reg_to_h5" [("-i", "r.dcm"); ("-o", "t.h5")] "--fixd" ["A"; "--help"]
             eq_refl (or_introl eq_refl)).
  - exact (ParseArguments_stops_at_first_other_token
             "reg_to_h5" [("-i", "r.dcm")] "--help" ["--fixd"; "A"]
             eq_refl (or_introl eq_refl)).
  - exact (ParseArguments_stops_at_first_other_token
             "reg_to_h5" [("-i", "r.dcm"); ("-o", "t.h5")] "--moving" []
             eq_refl (or_intror eq_refl)).
Defined.

(** X3: flags in another order, with aliases and an overwritten value. *)
Lemma ParseArguments_pairs_witness :
  ParseArguments "reg_to_h5"
                 ["--fixed"; "B"; "-o"; "t.h5"; "--fixed"; "A"; "-i"; "r.dcm"]
  = Parsed (mkArguments "r.dcm" "t.h5" (Some "A") None)
  /\ ParseArguments "reg_to_h5"
                    ["--input"; "r.dcm"; "--output"; "t.h5"; "--fixed"; "A"]
     = ParseArguments "reg_to_h5"
                      ["--fixed"; "B"; "-o"; "t.h5"; "--fixed"; "A"; "-i"; "r.dcm"].
Proof.
  destruct (ParseArguments_pairs
              "reg_to_h5"
              [("--fixed", "B"); ("-o", "t.h5"); ("--fixed", "A"); ("-i", "r.dcm")]
              eq_refl)
    as [Hform Hsame].
  split; [exact Hform |].
  apply (Hsame [("--input", "r.dcm"); ("--output", "t.h5"); ("--fixed", "A")] eq_refl).
  intros f. destruct f; reflexivity.
Defined.

(** X4 at a command line without an output. *)
Lemma ParseArguments_Exit_cases_witness :
  (EXIT_FAILURE = EXIT_SUCCESS /\ PrintUsage "reg_to_h5" = PrintUsage "reg_to_h5"
   /\ help_requested ["--input"; "r.dcm"] = true)
  \/ (EXIT_FAILURE = EXIT_FAILURE /\ PrintUsage "reg_to_h5" = PrintUsage "reg_to_h5")
  \/ (EXIT_FAILURE = EXIT_FAILURE
      /\ exists key, In key ["--input"; "r.dcm"]
                     /\ PrintUsage "reg_to_h5"
                        = ("Unknown argument: " ++ key ++ nl ++ PrintUsage "reg_to_h5")%string).
Proof.
  exact (ParseArguments_Exit_cases
           "reg_to_h5" ["--input"; "r.dcm"] EXIT_FAILURE (PrintUsage "reg_to_h5")
           eq_refl).
Defined.

(** X5 at the frame [MATRIX] and at a file that does not load. *)
Lemma ReadComposite_cases_witness :
  ReadComposite sample_reader "r.dcm" "MATRIX"
  = Throw (UnexpectedTransformShape "MATRIX")
  /\ sample_reader "missing.dcm" "A" = Failed "Could not load the file: missing.dcm".
Proof.
  split.
  - apply (ReadComposite_cases sample_reader "r.dcm" "MATRIX").
    exists (translation 1 0 0), []. reflexivity.
  - apply (ReadComposite_cases sample_reader "missing.dcm" "A"). reflexivity.
Defined.

(** X6: a moving frame that is not in the file is reported before the
    singular fixed composite. *)
Lemma ComposeFixedToMoving_Throw_cases_witness :
  ComposeFixedToMoving sample_reader "r.dcm" "SINGULAR" "1.2.3.4"
  = Throw (FrameNotFound "1.2.3.4").
Proof.
  apply (ComposeFixedToMoving_Throw_cases sample_reader "r.dcm" "SINGULAR" "1.2.3.4").
  right. left. exists [Leaf (scaling 1 1 0)]. split; reflexivity.
Defined.

(** X7 at a run that fails on the frame. *)
Lemma main_exit_status_witness :
  cerr (main sample_reader sample_writer "reg_to_h5"
             ["--input"; "r.dcm"; "--output"; "t.h5"; "--fixed"; "MATRIX"]) <> "".
Proof.
  apply (main_exit_status sample_reader sample_writer "reg_to_h5"
                          ["--input"; "r.dcm"; "--output"; "t.h5"; "--fixed"; "MATRIX"]).
  reflexivity.
Defined.

(** X8 at a file that does not load and at a writer that cannot write. *)
Lemma ITK_exceptions_reported_witness :
  main sample_reader sample_writer "reg_to_h5"
       ["--input"; "missing.dcm"; "--output"; "t.h5"; "--fixed"; "A"]
  = mkOutcome EXIT_FAILURE
      ("ITK error: Could not load the file: missing.dcm" ++ nl) []
  /\ main sample_reader failing_writer "reg_to_h5"
          ["--input"; "r.dcm"; "--output"; "t.h5"; "--fixed"; "A"]
     = mkOutcome EXIT_FAILURE
         ("ITK error: Could not write the file: t.h5" ++ nl)
         [("t.h5", [Leaf (translation 10 0 0)])].
Proof.
  split.
  - exact (proj1 (ITK_exceptions_reported
                    sample_reader sample_writer "reg_to_h5"
                    ["--input"; "missing.dcm"; "--output"; "t.h5"; "--fixed"; "A"]
                    (mkArguments "missing.dcm" "t.h5" (Some "A") None)
                    "A" "Could not load the file: missing.dcm" eq_refl eq_refl)
                 eq_refl).
  - exact (proj2 (ITK_exceptions_reported
                    sample_reader failing_writer "reg_to_h5"
                    ["--input"; "r.dcm"; "--output"; "t.h5"; "--fixed"; "A"]
                    (mkArguments "r.dcm" "t.h5" (Some "A") None)
                    "A" "Could not write the file: t.h5" eq_refl eq_refl)
                 [Leaf (translation 10 0 0)] eq_refl eq_refl).
Defined.

Lemma sample_pair_Return (fixedFoR movingFoR : string) :
  match ComposeFixedToMoving sample_reader "r.dcm" fixedFoR movingFoR with
  | Return _ => true
  | Throw _ => false
  end = true ->
  ComposeFixedToMoving sample_reader "r.dcm" fixedFoR movingFoR
  = Return (sample_pair fixedFoR movingFoR).
Proof.
  unfold sample_pair.
  now destruct (ComposeFixedToMoving sample_reader "r.dcm" fixedFoR movingFoR).
Defined.

Lemma sample_single_Return (frameOfReference : string) :
  match ExtractSingle sample_reader "r.dcm" frameOfReference with
  | Return _ => true
  | Throw _ => false
  end = true ->
  ExtractSingle sample_reader "r.dcm" frameOfReference
  = Return (sample_single frameOfReference).
Proof.
  unfold sample_single.
  now destruct (ExtractSingle sample_reader "r.dcm" frameOfReference).
Defined.

(** X9 at the frame [AB]. *)
Lemma ComposeFixedToMoving_same_frame_witness :
  CompositeTransformPoint (sample_pair "AB" "AB") (vector 4 2 0) = vector 4 2 0.
Proof.
  assert (Hc : match ComposeFixedToMoving sample_reader "r.dcm" "AB" "AB" with
               | Return _ => true
               | Throw _ => false
               end = true) by (vm_compute; reflexivity).
  exact (proj1 (ComposeFixedToMoving_same_frame
                  sample_reader "r.dcm" "AB" _ (sample_pair_Return "AB" "AB" Hc))
               (vector 4 2 0)).
Defined.

(** X10 at the frames [AB] and [NESTED]. *)
Lemma ComposeFixedToMoving_swap_inverse_witness :
  CompositeTransformPoint (sample_pair "NESTED" "AB")
    (CompositeTransformPoint (sample_pair "AB" "NESTED") (vector 4 2 0))
  = vector 4 2 0.
Proof.
  assert (H1 : match ComposeFixedToMoving sample_reader "r.dcm" "AB" "NESTED" with
               | Return _ => true
               | Throw _ => false
               end = true) by (vm_compute; reflexivity).
  assert (H2 : match ComposeFixedToMoving sample_reader "r.dcm" "NESTED" "AB" with
               | Return _ => true
               | Throw _ => false
               end = true) by (vm_compute; reflexivity).
  exact (ComposeFixedToMoving_swap_inverse
           sample_reader "r.dcm" "AB" "NESTED" _ _
           (sample_pair_Return "AB" "NESTED" H1)
           (sample_pair_Return "NESTED" "AB" H2) (vector 4 2 0)).
Defined.

(** X11 at the frames [A], [AB] and [NESTED]. *)
Lemma ComposeFixedToMoving_chain_witness :
  CompositeTransformPoint (sample_pair "AB" "NESTED")
    (CompositeTransformPoint (sample_pair "A" "AB") (vector 4 2 0))
  = CompositeTransformPoint (sample_pair "A" "NESTED") (vector 4 2 0).
Proof.
  assert (H1 : match ComposeFixedToMoving sample_reader "r.dcm" "A" "AB" with
               | Return _ => true
               | Throw _ => false
               end = true) by (vm_compute; reflexivity).
  assert (H2 : match ComposeFixedToMoving sample_reader "r.dcm" "AB" "NESTED" with
               | Return _ => true
               | Throw _ => false
               end = true) by (vm_compute; reflexivity).
  assert (H3 : match ComposeFixedToMoving sample_reader "r.dcm" "A" "NESTED" with
               | Return _ => true
               | Throw _ => false
               end = true) by (vm_compute; reflexivity).
  exact (ComposeFixedToMoving_chain
           sample_reader "r.dcm" "A" "AB" "NESTED" _ _ _
           (sample_pair_Return "A" "AB" H1) (sample_pair_Return "AB" "NESTED" H2)
           (sample_pair_Return "A" "NESTED" H3) (vector 4 2 0)).
Defined.

(** X12 at the frames [AB] and [NESTED]. *)
Lemma ComposeFixedToMoving_after_ExtractSingle_witness :
  CompositeTransformPoint (sample_pair "AB" "NESTED")
    (CompositeTransformPoint (sample_single "AB") (vector 4 2 0))
  = CompositeTransformPoint (sample_single "NESTED") (vector 4 2 0).
Proof.
  assert (H1 : match ComposeFixedToMoving sample_reader "r.dcm" "AB" "NESTED" with
               | Return _ => true
               | Throw _ => false
               end = true) by (vm_compute; reflexivity).
  assert (H2 : match ExtractSingle sample_reader "r.dcm" "AB" with
               | Return _ => true
               | Throw _ => false
               end = true) by (vm_compute; reflexivity).
  assert (H3 : match ExtractSingle sample_reader "r.dcm" "NESTED" with
               | Return _ => true
               | Throw _ => false
               end = true) by (vm_compute; reflexivity).
  exact (ComposeFixedToMoving_after_ExtractSingle
           sample_reader "r.dcm" "AB" "NESTED" _ _ _
           (sample_pair_Return "AB" "NESTED" H1) (sample_single_Return "AB" H2)
           (sample_single_Return "NESTED" H3) (vector 4 2 0)).
Defined.

(** X13 at a run in single-extraction mode on the frame [NESTED]. *)
Lemma main_succeeds_witness :
  main sample_reader sample_writer "reg_to_h5"
       ["--input"; "r.dcm"; "--output"; "t.h5"; "--fixed"; "NESTED"]
  = mkOutcome EXIT_SUCCESS ""
      [("t.h5", [Leaf (translation 1 2 3); Leaf (scaling 2 4 8)])].
Proof.
  exact (main_succeeds
           sample_reader sample_writer "reg_to_h5"
           ["--input"; "r.dcm"; "--output"; "t.h5"; "--fixed"; "NESTED"]
           (mkArguments "r.dcm" "t.h5" (Some "NESTED") None)
           "NESTED"
           [Composite [Leaf (translation 1 2 3)]; Leaf (scaling 2 4 8)]
           eq_refl eq_refl eq_refl (fun _ => eq_refl)).
Defined.
